(** * deep-research: the recursive research engine of [src/deep-research.ts]

    A shallow embedding of [deepResearch] and of the helpers it calls,
    followed by the properties of the engine: error propagation, branch
    isolation, aggregation, the breadth/depth policy, termination, progress
    reporting and the scheduling of the tool calls.

    Conventions.
    - A TypeScript [number] that holds a count (breadth, depth, the progress
      counters) is a [Z]; fractional values are outside the model.
    - A promise is modelled by the way it settles: [Resolved v] or
      [Rejected].  The payload of a rejection is not modelled: under
      [Promise.all] it depends on timing and nothing below depends on it.
    - The reasoning oracle ([generateObject]) and the research tools
      ([tool.execute]) are external.  They are fields of a [World]; every
      call is keyed by the position of the calling node in the call tree
      (the list of branch indices from the root) as well as by its
      arguments, so the same prompt may be answered differently at
      different nodes.
    - The observer [onProgress] and the logger do not throw. *)

From Stdlib Require Import ZArith Lia Ascii.
From stdpp Require Import base list strings gmap pretty.

Local Open Scope Z_scope.

(** ** Settled promises *)

Inductive outcome (A : Type) : Type :=
| Resolved (a : A)
| Rejected.
Arguments Resolved {A} a.
Arguments Rejected {A}.

Definition isResolved {A : Type} (p : outcome A) : bool :=
  match p with
  | Resolved _ => true
  | Rejected => false
  end.

(** [Promise.all]: fulfils with the values in the order of the input array
    when every promise fulfils, rejects as soon as one rejects. *)
Fixpoint Promise_all {A : Type} (ps : list (outcome A)) : outcome (list A) :=
  match ps with
  | [] => Resolved []
  | Resolved a :: ps' =>
      match Promise_all ps' with
      | Resolved l => Resolved (a :: l)
      | Rejected => Rejected
      end
  | Rejected :: _ => Rejected
  end.

(** ** JavaScript built-ins used by the engine *)

(** [Math.ceil(b / 2)] on an integer [b]. *)
Definition Math_ceil_half (b : Z) : Z := (b + 1) `div` 2.

(** [arr.slice(0, n)]: a negative [n] counts from the end of the array. *)
Definition slice0 {A : Type} (n : Z) (arr : list A) : list A :=
  if decide (n < 0)
  then take (Z.to_nat (Z.of_nat (length arr) + n)) arr
  else take (Z.to_nat n) arr.

(** A JavaScript [Set] of strings iterates in insertion order; it is the
    list of its members in that order. *)
Module JSSet.

Definition t := list string.

Definition empty : t := [].

(** [set.add(x)] *)
Definition add (s : t) (x : string) : t :=
  if decide (x ∈ s) then s else s ++ [x].

(** [new Set(iterable)] *)
Definition of_array (xs : list string) : t := foldl add empty xs.

(** [Array.from(set)] *)
Definition to_array (s : t) : list string := s.

End JSSet.

(** [Array.from(new Set(xs))] *)
Definition unique (xs : list string) : list string :=
  JSSet.to_array (JSSet.of_array xs).

(** ** Data model *)

(** [Source] of the tools module; only the fields the engine reads. *)
Record Source := mkSource {
  file_name : string;
  file_path : string;
}.

(** [AgentResponse] of the tools module; only the fields the engine reads.
    [source] and [compliance_score] are optional. *)
Module AgentResponse.
Record t := mk {
  content : string;
  source : option (list Source);
  compliance_score : option string;
}.
End AgentResponse.

(** One follow-up question returned by the oracle. *)
Record Question := mkQuestion {
  question : string;
  rationale : string;
}.

(** A research tool: its description and what [tool.execute({query})]
    settles to when called for the branch at a given position. *)
Record Tool := mkTool {
  description : string;
  execute : list nat → string → outcome AgentResponse.t;
}.

(** [ResearchResult]; [compliance_scores] is an optional field. *)
Record ResearchResult := mkResult {
  learnings : list string;
  sources : list string;
  compliance_scores : option (list string);
}.

(** The object returned by [processAgentResponse]. *)
Module Processed.
Record t := mk {
  learnings : list string;
  sources : list string;
  compliance_score : option string;
}.
End Processed.

(** The parameters of one call of [deepResearch]. *)
Module Node.
Record t := mk {
  query : string;
  breadth : Z;
  depth : Z;
  learnings : list string;
  sources : list string;
}.
End Node.

(** The external collaborators. *)
Record World := mkWorld {
  (** the [researchTools] catalog, by name *)
  researchTools : list (string * Tool);
  (** the [generateObject] call of [determineResearchTool]:
      node, query ↦ toolName, reason *)
  classify : list nat → string → outcome (string * string);
  (** the [generateObject] call of [generateFollowUpQuestions]:
      node, query, toolDescription, previousLearnings ↦ questions *)
  expand : list nat → string → string → list string → outcome (list Question);
}.

(** ** The helpers of [deepResearch] *)

(** The own properties of the catalog object, one entry per name. *)
Fixpoint ownTool (catalog : list (string * Tool)) (toolName : string)
  : option Tool :=
  match catalog with
  | [] => None
  | (name, tool) :: rest =>
      if decide (name = toolName) then Some tool else ownTool rest toolName
  end.

(** The catalog is a plain object, so a name that is not one of its own
    properties is looked up in [Object.prototype], whose properties are
    these. *)
Definition inheritedNames : list string :=
  [ "constructor"; "__defineGetter__"; "__defineSetter__"; "hasOwnProperty";
    "__lookupGetter__"; "__lookupSetter__"; "isPrototypeOf";
    "propertyIsEnumerable"; "toString"; "valueOf"; "__proto__";
    "toLocaleString" ].

(** What the engine has in hand when the name is inherited: a function or
    object of the language.  Reading its [name] does not throw; its
    [description] is [undefined], which the prompt of the question
    generation renders as the text undefined; it has no [execute], so
    calling [tool.execute] throws, for every question. *)
Definition inheritedTool : Tool :=
  {| description := "undefined";
     execute := λ _ _, Rejected |}.

(** [researchTools[toolName]]: [None] is [undefined]. *)
Definition lookupTool (catalog : list (string * Tool)) (toolName : string)
  : option Tool :=
  match ownTool catalog toolName with
  | Some tool => Some tool
  | None =>
      if decide (toolName ∈ inheritedNames) then Some inheritedTool else None
  end.

Definition determineResearchTool (w : World) (path : list nat) (query : string)
  : outcome (option Tool * string) :=
  match classify w path query with
  | Resolved (toolName, reason) =>
      Resolved (lookupTool (researchTools w) toolName, reason)
  | Rejected => Rejected
  end.

Definition generateFollowUpQuestions (w : World) (path : list nat)
    (query toolDescription : string) (numQuestions : Z)
    (previousLearnings : list string) : outcome (list Question) :=
  match expand w path query toolDescription previousLearnings with
  | Resolved questions => Resolved (slice0 numQuestions questions)
  | Rejected => Rejected
  end.

(** [`${s.file_name} (${s.file_path})`] *)
Definition formatSource (s : Source) : string :=
  file_name s +:+ " (" +:+ file_path s +:+ ")".

Definition processAgentResponse (response : AgentResponse.t) : Processed.t :=
  {| Processed.learnings := [AgentResponse.content response];
     Processed.sources :=
       match AgentResponse.source response with
       | Some ss => formatSource <$> ss
       | None => []
       end;
     Processed.compliance_score := AgentResponse.compliance_score response |}.

(** Truthiness of an optional string: [undefined] and [""] are falsy. *)
Definition truthy (s : option string) : bool :=
  match s with
  | Some s' => bool_decide (s' ≠ "")
  | None => false
  end.

(** ** The engine *)

(** The query of a recursive call:
    [`Following up on: ${response.content}\nContext: ${questionObj.rationale}`] *)
Definition followUpQuery (response : AgentResponse.t) (questionObj : Question)
  : string :=
  "Following up on: " +:+ AgentResponse.content response
    +:+ String "010"%char "Context: " +:+ rationale questionObj.

(** The task that [deepResearch] hands to the limiter for the [i]-th
    follow-up question.  [recurse] is the recursive call.  The promise
    returned by [limit(...)] settles as the task does.

    The [try] block covers the tool call; the promise of the recursive call
    is returned without being awaited, so its rejection is not seen by the
    [catch] and becomes the rejection of the task.  The calls of
    [reportProgress] have no part in the result; they are the subject of the
    section on progress reporting. *)
Definition branch (recurse : list nat → Node.t → option (outcome ResearchResult))
    (tool : Tool) (path : list nat) (node : Node.t)
    (i : nat) (questionObj : Question) : option (outcome ResearchResult) :=
  match execute tool (path ++ [i]) (question questionObj) with
  | Resolved response =>
      let processedResponse := processAgentResponse response in
      let newBreadth := Math_ceil_half (Node.breadth node) in
      let newDepth := Node.depth node - 1 in
      let allLearnings :=
        Node.learnings node ++ Processed.learnings processedResponse in
      let allSources :=
        Node.sources node ++ Processed.sources processedResponse in
      if decide (newDepth > 0) then
        recurse (path ++ [i])
          {| Node.query := followUpQuery response questionObj;
             Node.breadth := newBreadth;
             Node.depth := newDepth;
             Node.learnings := allLearnings;
             Node.sources := allSources |}
      else
        Some (Resolved
          {| learnings := allLearnings;
             sources := allSources;
             compliance_scores :=
               if truthy (Processed.compliance_score processedResponse)
               then (λ score, [score]) <$> Processed.compliance_score processedResponse
               else None |})
  | Rejected =>
      Some (Resolved {| learnings := []; sources := []; compliance_scores := Some [] |})
  end.

(** [followUpQuestions.map(questionObj => limit(...))]: one task per
    question, in the order of the array; [i] is the index of the first. *)
Fixpoint fanOut (task : nat → Question → option (outcome ResearchResult))
    (i : nat) (followUpQuestions : list Question)
  : option (list (outcome ResearchResult)) :=
  match followUpQuestions with
  | [] => Some []
  | questionObj :: rest =>
      match task i questionObj, fanOut task (S i) rest with
      | Some p, Some ps => Some (p :: ps)
      | _, _ => None
      end
  end.

(** "Combine all results".  [results.flat()] leaves an array of objects
    unchanged; [r.compliance_scores || []] reads an absent field as []. *)
Definition aggregate (results : list ResearchResult) : ResearchResult :=
  let flatResults := results in
  {| learnings := unique (flatResults ≫= learnings);
     sources := unique (flatResults ≫= sources);
     compliance_scores :=
       Some (flatResults ≫= (λ r, default [] (compliance_scores r))) |}.

(** The body of [deepResearch].  When the oracle names a tool that is not
    in the catalog, [tool] is [undefined] and reading [tool.name] throws. *)
Definition deepResearchBody
    (recurse : list nat → Node.t → option (outcome ResearchResult))
    (w : World) (path : list nat) (node : Node.t)
  : option (outcome ResearchResult) :=
  match determineResearchTool w path (Node.query node) with
  | Resolved (Some tool, reason) =>
      match generateFollowUpQuestions w path (Node.query node)
              (description tool) (Node.breadth node) (Node.learnings node) with
      | Resolved followUpQuestions =>
          match fanOut (branch recurse tool path node) 0 followUpQuestions with
          | Some promises =>
              match Promise_all promises with
              | Resolved results => Some (Resolved (aggregate results))
              | Rejected => Some Rejected
              end
          | None => None
          end
      | Rejected => Some Rejected
      end
  | Resolved (None, reason) => Some Rejected
  | Rejected => Some Rejected
  end.

(** [deepResearch] with a bound on the nesting of recursive calls; [None]
    means that the bound was too small. *)
Fixpoint deepResearch_fuel (fuel : nat) (w : World) (path : list nat)
    (node : Node.t) : option (outcome ResearchResult) :=
  match fuel with
  | O => None
  | S fuel' => deepResearchBody (deepResearch_fuel fuel' w) w path node
  end.

(** The top-level call: [learnings] and [sources] default to [[]]. *)
Definition root (query : string) (breadth depth : Z) : Node.t :=
  {| Node.query := query; Node.breadth := breadth; Node.depth := depth;
     Node.learnings := []; Node.sources := [] |}.

(** The nesting of the recursive calls never exceeds [max 1 depth], so
    this fuel is enough. *)
Definition deepResearch (w : World) (node : Node.t)
  : option (outcome ResearchResult) :=
  deepResearch_fuel (S (Z.to_nat (Node.depth node))) w [] node.

(** ** The call tree *)

(** The parameters of the recursive call made for a question. *)
Definition childNode (node : Node.t) (questionObj : Question)
    (response : AgentResponse.t) : Node.t :=
  {| Node.query := followUpQuery response questionObj;
     Node.breadth := Math_ceil_half (Node.breadth node);
     Node.depth := Node.depth node - 1;
     Node.learnings :=
       Node.learnings node ++ Processed.learnings (processAgentResponse response);
     Node.sources :=
       Node.sources node ++ Processed.sources (processAgentResponse response) |}.

(** The follow-up questions of a node, when both oracle calls succeed and
    the selected tool exists. *)
Definition questionsOf (w : World) (path : list nat) (node : Node.t)
  : option (Tool * list Question) :=
  match determineResearchTool w path (Node.query node) with
  | Resolved (Some tool, _) =>
      match generateFollowUpQuestions w path (Node.query node)
              (description tool) (Node.breadth node) (Node.learnings node) with
      | Resolved followUpQuestions => Some (tool, followUpQuestions)
      | Rejected => None
      end
  | _ => None
  end.

(** The recursive call made by branch [i] of a node, if it makes one. *)
Definition childCall (w : World) (path : list nat) (node : Node.t) (i : nat)
  : option Node.t :=
  match questionsOf w path node with
  | Some (tool, followUpQuestions) =>
      match followUpQuestions !! i with
      | Some questionObj =>
          match execute tool (path ++ [i]) (question questionObj) with
          | Resolved response =>
              if decide (Node.depth node - 1 > 0)
              then Some (childNode node questionObj response)
              else None
          | Rejected => None
          end
      | None => None
      end
  | None => None
  end.

(** [callAt w path node p]: the parameters with which [deepResearch] is
    called [p] levels below the call [node] made at position [path], if the
    run gets there. *)
Fixpoint callAt (w : World) (path : list nat) (node : Node.t) (p : list nat)
  : option Node.t :=
  match p with
  | [] => Some node
  | i :: p' =>
      match childCall w path node i with
      | Some child => callAt w (path ++ [i]) child p'
      | None => None
      end
  end.

(** An oracle call of the node fails: the tool selection, or the question
    generation that follows a selection naming a tool of the catalog. *)
Definition oracleFails (w : World) (path : list nat) (node : Node.t) : bool :=
  match determineResearchTool w path (Node.query node) with
  | Rejected => true
  | Resolved (Some tool, _) =>
      match generateFollowUpQuestions w path (Node.query node)
              (description tool) (Node.breadth node) (Node.learnings node) with
      | Rejected => true
      | Resolved _ => false
      end
  | Resolved (None, _) => false
  end.

(** The nesting a call needs: one level for itself and one more for each
    unit of depth above 1. *)
Definition levels (node : Node.t) : nat := S (Z.to_nat (Node.depth node - 1)).


(** ** Progress reporting *)

Record ResearchProgress := mkProgress {
  currentDepth : Z;
  totalDepth : Z;
  currentBreadth : Z;
  totalBreadth : Z;
  currentQuery : option string;
  totalQueries : Z;
  completedQueries : Z;
}.

(** [Partial<ResearchProgress>]: [None] is a property that the update does
    not have.  [currentQuery] can be present with the value [undefined]. *)
Module Update.
Record t := mk {
  currentDepth : option Z;
  totalDepth : option Z;
  currentBreadth : option Z;
  totalBreadth : option Z;
  currentQuery : option (option string);
  totalQueries : option Z;
  completedQueries : option Z;
}.
Definition none : t := mk None None None None None None None.
End Update.

(** [Object.assign(progress, update)] *)
Definition Object_assign (progress : ResearchProgress) (update : Update.t)
  : ResearchProgress :=
  {| currentDepth := default (currentDepth progress) (Update.currentDepth update);
     totalDepth := default (totalDepth progress) (Update.totalDepth update);
     currentBreadth :=
       default (currentBreadth progress) (Update.currentBreadth update);
     totalBreadth := default (totalBreadth progress) (Update.totalBreadth update);
     currentQuery := default (currentQuery progress) (Update.currentQuery update);
     totalQueries := default (totalQueries progress) (Update.totalQueries update);
     completedQueries :=
       default (completedQueries progress) (Update.completedQueries update) |}.

(** The state of the reporting of one call: its [progress] object and the
    snapshots that [onProgress] has been given so far, oldest first. *)
Definition Reporting : Type := ResearchProgress * list ResearchProgress.

(** [reportProgress]: update [progress] in place and hand it to the
    observer, which sees its fields as they are at that moment. *)
Definition reportProgress (update : Update.t) (st : Reporting) : Reporting :=
  let progress := Object_assign st.1 update in
  (progress, st.2 ++ [progress]).

(** The [progress] object that every call of [deepResearch] creates. *)
Definition initialProgress (node : Node.t) : ResearchProgress :=
  {| currentDepth := Node.depth node;
     totalDepth := Node.depth node;
     currentBreadth := Node.breadth node;
     totalBreadth := Node.breadth node;
     currentQuery := None;
     totalQueries := 0;
     completedQueries := 0 |}.

(** The update reported once the follow-up questions are known. *)
Definition questionsUpdate (followUpQuestions : list Question) : Update.t :=
  {| Update.currentDepth := None;
     Update.totalDepth := None;
     Update.currentBreadth := None;
     Update.totalBreadth := None;
     Update.currentQuery := Some (question <$> head followUpQuestions);
     Update.totalQueries := Some (Z.of_nat (length followUpQuestions));
     Update.completedQueries := None |}.

(** The update reported by a branch after its tool call has returned;
    [progress] is the object as the branch finds it. *)
Definition branchUpdate (node : Node.t) (progress : ResearchProgress)
    (questionObj : Question) : Update.t :=
  let newBreadth := Math_ceil_half (Node.breadth node) in
  let newDepth := Node.depth node - 1 in
  if decide (newDepth > 0) then
    {| Update.currentDepth := Some newDepth;
       Update.totalDepth := None;
       Update.currentBreadth := Some newBreadth;
       Update.totalBreadth := None;
       Update.currentQuery := Some (Some (question questionObj));
       Update.totalQueries := None;
       Update.completedQueries := Some (completedQueries progress + 1) |}
  else
    {| Update.currentDepth := Some 0;
       Update.totalDepth := None;
       Update.currentBreadth := None;
       Update.totalBreadth := None;
       Update.currentQuery := Some (Some (question questionObj));
       Update.totalQueries := None;
       Update.completedQueries := Some (completedQueries progress + 1) |}.

(** The reports of one call, without those of the calls below it.
    [resumed] lists the questions whose tool call returned, in the order in
    which their branches resume; that order is decided by the tools.  A
    branch reads [progress.completedQueries] and reports in one synchronous
    step, so the reports of the branches apply one after the other. *)
Fixpoint branchReports (node : Node.t) (progress : ResearchProgress)
    (resumed : list Question) : list ResearchProgress :=
  match resumed with
  | [] => []
  | questionObj :: rest =>
      let progress' :=
        Object_assign progress (branchUpdate node progress questionObj) in
      progress' :: branchReports node progress' rest
  end.

Definition nodeReports (node : Node.t) (followUpQuestions resumed : list Question)
  : list ResearchProgress :=
  let progress :=
    Object_assign (initialProgress node) (questionsUpdate followUpQuestions) in
  progress :: branchReports node progress resumed.

(** The snapshots given to [onProgress] over a whole run, for the schedule
    in which every branch, with the calls below it, finishes before the
    tool call of the next branch returns.  [recurse] gives the snapshots of
    a recursive call, which receives the same [onProgress]. *)
Definition branchLog (recurse : list nat → Node.t → option (list ResearchProgress))
    (tool : Tool) (path : list nat) (node : Node.t)
    (i : nat) (questionObj : Question) (st : Reporting) : option Reporting :=
  match execute tool (path ++ [i]) (question questionObj) with
  | Resolved response =>
      let st' := reportProgress (branchUpdate node st.1 questionObj) st in
      if decide (Node.depth node - 1 > 0) then
        match recurse (path ++ [i]) (childNode node questionObj response) with
        | Some below => Some (st'.1, st'.2 ++ below)
        | None => None
        end
      else Some st'
  | Rejected => Some st
  end.

Fixpoint fanOutLog (task : nat → Question → Reporting → option Reporting)
    (i : nat) (followUpQuestions : list Question) (st : Reporting)
  : option Reporting :=
  match followUpQuestions with
  | [] => Some st
  | questionObj :: rest =>
      match task i questionObj st with
      | Some st' => fanOutLog task (S i) rest st'
      | None => None
      end
  end.

(** Nothing is reported before both oracle calls have succeeded. *)
Definition progressLogBody
    (recurse : list nat → Node.t → option (list ResearchProgress))
    (w : World) (path : list nat) (node : Node.t)
  : option (list ResearchProgress) :=
  match questionsOf w path node with
  | Some (tool, followUpQuestions) =>
      let st :=
        reportProgress (questionsUpdate followUpQuestions)
          (initialProgress node, []) in
      snd <$> fanOutLog (branchLog recurse tool path node) 0 followUpQuestions st
  | None => Some []
  end.

Fixpoint progressLog_fuel (fuel : nat) (w : World) (path : list nat)
    (node : Node.t) : option (list ResearchProgress) :=
  match fuel with
  | O => None
  | S fuel' => progressLogBody (progressLog_fuel fuel' w) w path node
  end.

Definition progressLog (w : World) (node : Node.t)
  : option (list ResearchProgress) :=
  progressLog_fuel (S (Z.to_nat (Node.depth node))) w [] node.

(** The questions whose tool call returns, in the order of the array. *)
Fixpoint resumedInOrder (tool : Tool) (path : list nat) (i : nat)
    (followUpQuestions : list Question) : list Question :=
  match followUpQuestions with
  | [] => []
  | questionObj :: rest =>
      if isResolved (execute tool (path ++ [i]) (question questionObj))
      then questionObj :: resumedInOrder tool path (S i) rest
      else resumedInOrder tool path (S i) rest
  end.

(** No value is smaller than one that comes before it. *)
Definition nonDecreasing (l : list Z) : Prop :=
  ∀ i j a b, (i ≤ j)%nat → l !! i = Some a → l !! j = Some b → a ≤ b.

(** ** Scheduling of the tool calls *)

(** [const ConcurrencyLimit = 2] *)
Definition ConcurrencyLimit : nat := 2.

(** The state of a run, as far as scheduling goes: how far each call of
    [deepResearch] has got and, once it has fanned out, the state of the
    tasks that it handed to its limiter, in the order of its follow-up
    questions.  Every [FanOut] has tasks of its own because every call
    creates its limiter, [pLimit(ConcurrencyLimit)], itself.

    A task is [Queued] until the limiter starts it, [Executing] while it
    awaits [tool.execute], [Descending] while it awaits nothing but the
    recursive call whose promise it returned, and [Finished] once it has
    returned a result of its own (the leaf result, or the empty result of
    the [catch]). *)
Inductive Task (call : Type) : Type :=
| Queued
| Executing
| Descending (c : call)
| Finished.
Arguments Queued {call}.
Arguments Executing {call}.
Arguments Descending {call} c.
Arguments Finished {call}.

#[local] Unset Elimination Schemes.
Inductive Call : Type :=
| Selecting
| Generating
| Failed
| FanOut (tasks : list (Task Call)).
#[local] Set Elimination Schemes.

Inductive Settlement : Type :=
| Pending
| Fulfilled
| Broken.

Definition isBroken (s : Settlement) : bool :=
  match s with Broken => true | _ => false end.

Definition isFulfilled (s : Settlement) : bool :=
  match s with Fulfilled => true | _ => false end.

Definition isPending (s : Settlement) : bool :=
  match s with Pending => true | _ => false end.

(** The state of [Promise.all(promises)]. *)
Definition Promise_all_state (promises : list Settlement) : Settlement :=
  if existsb isBroken promises then Broken
  else if forallb isFulfilled promises then Fulfilled
  else Pending.

(** The state of the promise of a task, given that of a call: a task that
    returns the promise of its recursive call settles as that call does. *)
Definition taskPromise {call : Type} (promise : call → Settlement)
    (t : Task call) : Settlement :=
  match t with
  | Queued | Executing => Pending
  | Descending c => promise c
  | Finished => Fulfilled
  end.

(** The state of the promise returned by a call of [deepResearch]. *)
Fixpoint promise (c : Call) : Settlement :=
  match c with
  | Selecting | Generating => Pending
  | Failed => Broken
  | FanOut tasks => Promise_all_state (map (taskPromise promise) tasks)
  end.

(** A task holds a slot of its limiter from the moment it is started until
    its promise settles. *)
Definition holdsSlot (t : Task Call) : bool :=
  match t with
  | Queued => false
  | _ => isPending (taskPromise promise t)
  end.

(** [limit.activeCount] *)
Definition activeCount (tasks : list (Task Call)) : nat :=
  length (filter (λ t, holdsSlot t = true) tasks).

(** The limiter takes the first [free] tasks of its queue and runs them. *)
Fixpoint start (free : nat) (tasks : list (Task Call)) : list (Task Call) :=
  match tasks with
  | [] => []
  | t :: rest =>
      match free, t with
      | S free', Queued => Executing :: start free' rest
      | _, _ => t :: start free rest
      end
  end.

(** The limiter starts queued tasks, oldest first, while fewer than
    [ConcurrencyLimit] tasks hold a slot.  It does so when the tasks are
    handed to it and whenever a task settles. *)
Definition schedule (tasks : list (Task Call)) : list (Task Call) :=
  start (ConcurrencyLimit - activeCount tasks) tasks.

(** What the run is waiting for are the calls to the oracle and to the
    tools.  An event is the return of one of them: of the tool selection
    ([ok]: it named a tool of the catalog), of the question generation (the
    number of follow-up questions, or [None] when it fails), or of
    [tool.execute] ([ok]: it did not throw). *)
Inductive Return : Type :=
| SelectionReturns (ok : bool)
| QuestionsReturn (questions : option nat)
| ToolReturns (ok : bool).

(** An event names the call that returns by its position: the position of
    the calling node for the oracle calls, followed by the index of the
    question for a tool call. *)
Definition Event : Type := list nat * Return.

(** A task resumes when its tool call returns: with [depth - 1 > 0] it
    returns the promise of the recursive call, which starts by selecting a
    tool; otherwise, and when the tool threw, it returns a result. *)
Definition resume (depth : Z) (ok : bool) : Task Call :=
  if ok then
    if decide (depth - 1 > 0) then Descending Selecting else Finished
  else Finished.

(** The task that an event makes resume, if the event is the return of the
    tool call of a task of this fan-out. *)
Definition toolReturn (depth : Z) (p : list nat) (r : Return)
  : option (Task Call) :=
  match p, r with
  | [], ToolReturns ok => Some (resume depth ok)
  | _, _ => None
  end.

(** The effect of an event on the task it is addressed to: an executing
    task resumes if its tool call returns, a descending task changes as the
    call below it does ([stepBelow]). *)
Definition stepTask (resumed : option (Task Call)) (stepBelow : Call → Call)
    (t : Task Call) : Task Call :=
  match t with
  | Executing => default t resumed
  | Descending c => Descending (stepBelow c)
  | _ => t
  end.

(** The effect of an event on a call of depth [depth].  An event that
    matches no pending call changes nothing.  The limiter of every call on
    the way to the event runs its queue, in case the event settled one of
    its tasks. *)
Fixpoint stepCall (depth : Z) (p : list nat) (r : Return) (c : Call) {struct p}
  : Call :=
  match p with
  | [] =>
      match c, r with
      | Selecting, SelectionReturns true => Generating
      | Selecting, SelectionReturns false => Failed
      | Generating, QuestionsReturn (Some n) =>
          FanOut (schedule (replicate n Queued))
      | Generating, QuestionsReturn None => Failed
      | _, _ => c
      end
  | i :: p' =>
      match c with
      | FanOut tasks =>
          FanOut (schedule
            (alter (stepTask (toolReturn depth p' r) (stepCall (depth - 1) p' r))
               i tasks))
      | _ => c
      end
  end.

(** The state reached from the top-level call by a sequence of events. *)
Definition runEvents (depth : Z) (events : list Event) : Call :=
  foldl (λ c e, stepCall depth e.1 e.2 c) Selecting events.

(** The call at a position of the tree. *)
Fixpoint callState (c : Call) (p : list nat) : option Call :=
  match p with
  | [] => Some c
  | i :: p' =>
      match c with
      | FanOut tasks =>
          match tasks !! i with
          | Some (Descending c') => callState c' p'
          | _ => None
          end
      | _ => None
      end
  end.

Definition isExecuting {call : Type} (t : Task call) : bool :=
  match t with Executing => true | _ => false end.

(** The tool calls in flight within the fan-out of one call. *)
Definition ownToolCalls (c : Call) : nat :=
  match c with
  | FanOut tasks => length (filter (λ t, isExecuting t = true) tasks)
  | _ => 0%nat
  end.

(** The tool calls in flight in the whole tree below a call. *)
Fixpoint allToolCalls (c : Call) : nat :=
  match c with
  | FanOut tasks =>
      list_sum (map (λ t,
        match t with
        | Executing => 1%nat
        | Descending c' => allToolCalls c'
        | _ => 0%nat
        end) tasks)
  | _ => 0%nat
  end.

(** No limiter of the tree has more tasks holding a slot than its
    capacity. *)
Fixpoint withinLimit (c : Call) : bool :=
  match c with
  | FanOut tasks =>
      bool_decide (activeCount tasks ≤ ConcurrencyLimit)%nat &&
      forallb (λ t,
        match t with
        | Descending c' => withinLimit c'
        | _ => true
        end) tasks
  | _ => true
  end.

Definition isQueued {call : Type} (t : Task call) : bool :=
  match t with Queued => true | _ => false end.

(** The tasks that wait are the last ones: no task has been started while
    an older one waits. *)
Fixpoint queuedLast (tasks : list (Task Call)) : bool :=
  match tasks with
  | [] => true
  | Queued :: rest => forallb isQueued rest
  | _ :: rest => queuedLast rest
  end.

(** While a task waits, every slot of the limiter is taken. *)
Definition noIdleSlot (tasks : list (Task Call)) : bool :=
  negb (existsb isQueued tasks) ||
  bool_decide (activeCount tasks = ConcurrencyLimit).

(** Both hold, within the capacity, at every call of the tree. *)
Fixpoint wellScheduled (c : Call) : bool :=
  match c with
  | FanOut tasks =>
      bool_decide (activeCount tasks ≤ ConcurrencyLimit)%nat &&
      queuedLast tasks && noIdleSlot tasks &&
      forallb (λ t,
        match t with
        | Descending c' => wellScheduled c'
        | _ => true
        end) tasks
  | _ => true
  end.

(** ** Reference definitions for the aggregation *)

(** Every distinct string, at the place of its first occurrence. *)
Fixpoint first_occurrences (xs : list string) : list string :=
  match xs with
  | [] => []
  | x :: rest => x :: filter (λ y, y ≠ x) (first_occurrences rest)
  end.

(** The array of values that [Promise.all] builds: one slot per input
    promise, filled when that promise fulfils.  [fulfilled] lists the
    fulfilments (index, value) in the order in which they happen. *)
Definition Promise_all_values {A : Type} (n : nat) (fulfilled : list (nat * A))
  : list (option A) :=
  foldl (λ values s, <[s.1 := Some s.2]> values) (replicate n None) fulfilled.

(** The result of a leaf branch as the specification words it: the score
    list holds the response's score if it carries one and is empty
    otherwise. *)
Definition spec_leafResult (parentLearnings parentSources : list string)
    (response : AgentResponse.t) : ResearchResult :=
  {| learnings := parentLearnings ++ [AgentResponse.content response];
     sources := parentSources ++
       match AgentResponse.source response with
       | Some ss => formatSource <$> ss
       | None => []
       end;
     compliance_scores :=
       Some match AgentResponse.compliance_score response with
            | Some score => [score]
            | None => []
            end |}.

(** ** A sample world *)

Definition sampleQuestions : list Question :=
  [ mkQuestion "q0" "r0"; mkQuestion "q1" "r1"; mkQuestion "q2" "r2" ].

(** A tool whose calls fail at the positions listed in [failing]. *)
Definition sampleTool (failing : list (list nat)) : Tool :=
  {| description := "market intelligence";
     execute := λ path query,
       if decide (path ∈ failing) then Rejected
       else Resolved
         {| AgentResponse.content := "answer to " +:+ query;
            AgentResponse.source := Some [mkSource "report.pdf" "/docs/report.pdf"];
            AgentResponse.compliance_score := Some "0.9" |} |}.

(** The oracle picks the one tool of the catalog, except at the nodes
    listed in [down], where the selection call fails; it proposes the
    three sample questions everywhere. *)
Definition sampleWorld (down failing : list (list nat)) : World :=
  {| researchTools := [("marketIntelligence", sampleTool failing)];
     classify := λ path query,
       if decide (path ∈ down) then Rejected
       else Resolved ("marketIntelligence", "best match");
     expand := λ path query toolDescription previousLearnings,
       Resolved sampleQuestions |}.

(** ** Where the findings of a result come from *)

(** [response] was returned by a tool of the catalog, called at or below the
    position [path]. *)
Definition toolAnswered (w : World) (path : list nat)
    (response : AgentResponse.t) : Prop :=
  ∃ name tool p q,
    lookupTool (researchTools w) name = Some tool ∧
    path `prefix_of` p ∧
    execute tool p q = Resolved response.

(** Every learning of [r] is one of [givenLearnings] or the content of a
    tool response; every source is one of [givenSources] or the formatted
    citation of a tool response; every score is the non-empty compliance
    score of a tool response. *)
Definition grounded (w : World) (path : list nat)
    (givenLearnings givenSources : list string) (r : ResearchResult) : Prop :=
  (∀ x, x ∈ learnings r →
     x ∈ givenLearnings ∨
     ∃ response, toolAnswered w path response ∧
                 x = AgentResponse.content response) ∧
  (∀ x, x ∈ sources r →
     x ∈ givenSources ∨
     ∃ response ss s, toolAnswered w path response ∧
                      AgentResponse.source response = Some ss ∧ s ∈ ss ∧
                      x = formatSource s) ∧
  (∀ x, x ∈ default [] (compliance_scores r) →
     x ≠ "" ∧
     ∃ response, toolAnswered w path response ∧
                 AgentResponse.compliance_score response = Some x).

(** [response] is what a tool call of the run returned: the call made at
    position [path] with the parameters [node] reaches, [p] levels down, a
    call whose two oracle calls succeeded, and the tool call made for one of
    the follow-up questions of that call returned [response]. *)
Definition returnedInRun (w : World) (path : list nat) (node : Node.t)
    (response : AgentResponse.t) : Prop :=
  ∃ p n tool followUpQuestions i questionObj,
    callAt w path node p = Some n ∧
    questionsOf w (path ++ p) n = Some (tool, followUpQuestions) ∧
    followUpQuestions !! i = Some questionObj ∧
    execute tool ((path ++ p) ++ [i]) (question questionObj) = Resolved response.

(** Every learning of [r] is one of [givenLearnings] or the content of a
    response that satisfies [returned]; every source is one of [givenSources]
    or the formatted citation of such a response. *)
Definition groundedBy (returned : AgentResponse.t → Prop)
    (givenLearnings givenSources : list string) (r : ResearchResult) : Prop :=
  (∀ x, x ∈ learnings r →
     x ∈ givenLearnings ∨
     ∃ response, returned response ∧ x = AgentResponse.content response) ∧
  (∀ x, x ∈ sources r →
     x ∈ givenSources ∨
     ∃ response ss s, returned response ∧
                      AgentResponse.source response = Some ss ∧ s ∈ ss ∧
                      x = formatSource s).

Definition groundedInRun (w : World) (path : list nat) (node : Node.t)
    (r : ResearchResult) : Prop :=
  groundedBy (returnedInRun w path node)
    (Node.learnings node) (Node.sources node) r.

(** * The tools module

    The functions that talk to the agent service.  [process.env] is a map
    from names to strings; [fetch] is external and is a parameter.  Every
    function returns the requests it hands to [fetch], oldest first, beside
    what it returns or throws.  The timer that aborts a request is not run:
    a request records the delay after which its signal would abort, and an
    abort shows as a value thrown by [fetch]. *)

(** A thrown value: [new Error(message)], or whatever [fetch] or
    [response.json()] threw. *)
Inductive thrown : Type :=
| JsError (message : string)
| Foreign (what : string).

Inductive result (A : Type) : Type :=
| Ok (a : A)
| Throw (e : thrown).
Arguments Ok {A} a.
Arguments Throw {A} e.

(** A promise that rejects with [e] is a [Rejected] promise. *)
Definition settled {A : Type} (r : result A) : outcome A :=
  match r with
  | Ok a => Resolved a
  | Throw _ => Rejected
  end.

Definition Env : Type := string → option string.

(** [AgentRequestBody]; the object literal of the market intelligence tool
    has the same fields. *)
Module AgentRequestBody.
Record t := mk {
  elzSessionId : option string;
  elzRequestCount : option Z;
  userId : option string;
  agentId : string;
  content : string;
  useHistory : option bool;
  returnRagContext : option bool;
  retrieverStrategy : option string;
  metadataFilterExpression : option string;
  chunkCount : option Z;
}.
End AgentRequestBody.

(** [AgentFunctionRequest]; the arguments are an object with string
    values. *)
Module AgentFunctionRequest.
Record t := mk {
  agentId : string;
  funcNameKey : string;
  arguments : list (string * string);
}.
End AgentFunctionRequest.

(** The object given to [JSON.stringify] for the body of a request. *)
Inductive RequestBody : Type :=
| ChatBody (b : AgentRequestBody.t)
| FunctionBody (b : AgentFunctionRequest.t).

(** The arguments of [fetch].  [abortAfter] is the delay in milliseconds of
    the timer that aborts the signal; [None]: no signal is given. *)
Module Request.
Record t := mk {
  url : string;
  method : string;
  headers : gmap string string;
  body : RequestBody;
  abortAfter : option Z;
}.
End Request.

(** What [fetch] resolves to; [json] is what [response.json()] gives. *)
Module Response.
Record t := mk {
  ok : bool;
  status : N;
  json : result AgentResponse.t;
}.
End Response.

Definition Fetch : Type := Request.t → result Response.t.

(** [AgentCallOptions] *)
Module AgentCallOptions.
Record t := mk {
  headers : option (gmap string string);
  timeout : option Z;
}.
End AgentCallOptions.

(** [AgentFunctionCallOptions] *)
Module AgentFunctionCallOptions.
Record t := mk {
  headers : option (gmap string string);
  timeout : option Z;
  functionName : string;
  agentId : string;
}.
End AgentFunctionCallOptions.

(** [SearchResultItem], [SearchResult], [ApiSearchOptions] *)
Record SearchResultItem := mkSearchResultItem {
  markdown : option string;
  url : option string;
}.

Record SearchResult := mkSearchResult {
  data : list SearchResultItem;
}.

Module ApiSearchOptions.
Record t := mk {
  timeout : Z;
  limit : Z;
  formats : list string;
}.
End ApiSearchOptions.

(** [options.timeout || 30000]: an absent timeout and 0 are falsy. *)
Definition timeoutOrDefault (timeout : option Z) : Z :=
  match timeout with
  | Some t => if decide (t = 0) then 30000 else t
  | None => 30000
  end.

(** [{ 'Content-Type': 'application/json', 'accept': 'application/json',
       ...extra }]: the properties of [extra] win. *)
Definition jsonHeaders (extra : gmap string string) : gmap string string :=
  extra ∪ {[ "Content-Type" := "application/json" ]}
        ∪ {[ "accept" := "application/json" ]}.

(** What follows a [fetch] in every function of the module: a response
    that is not ok throws "HTTP error! status: ...", otherwise the parsed
    body is returned; what [fetch] throws is thrown on. *)
Definition readResponse (fetched : result Response.t) : result AgentResponse.t :=
  match fetched with
  | Ok response =>
      if Response.ok response then Response.json response
      else Throw (JsError ("HTTP error! status: " +:+ pretty (Response.status response)))
  | Throw err => Throw err
  end.

Definition callAgent (env : Env) (fetch : Fetch) (agentId content : string)
    (options : AgentCallOptions.t) : list Request.t * result AgentResponse.t :=
  let baseUrl := env "AGENT_API_URL" in
  if negb (truthy baseUrl) then
    ([], Throw (JsError "AGENT_API_URL environment variable is not set"))
  else
    let apiUrl := default "" baseUrl +:+ "/agents/chat" in
    let body :=
      {| AgentRequestBody.elzSessionId := Some "123";
         AgentRequestBody.elzRequestCount := Some 0;
         AgentRequestBody.userId := env "USER_ID";
         AgentRequestBody.agentId := agentId;
         AgentRequestBody.content := content;
         AgentRequestBody.useHistory := Some false;
         AgentRequestBody.returnRagContext := Some false;
         AgentRequestBody.retrieverStrategy := Some "RAG";
         AgentRequestBody.metadataFilterExpression := None;
         AgentRequestBody.chunkCount := Some 20 |} in
    let request :=
      {| Request.url := apiUrl;
         Request.method := "POST";
         Request.headers :=
           jsonHeaders (default ∅ (AgentCallOptions.headers options));
         Request.body := ChatBody body;
         Request.abortAfter :=
           Some (timeoutOrDefault (AgentCallOptions.timeout options)) |} in
    ([request], readResponse (fetch request)).

Definition apiSearch (env : Env) (fetch : Fetch) (query : string)
    (options : ApiSearchOptions.t) : list Request.t * result SearchResult :=
  let searchAgentId := env "SEARCH_AGENT_ID" in
  if negb (truthy searchAgentId) then
    ([], Throw (JsError "SEARCH_AGENT_ID environment variable is not set"))
  else
    let '(requests, called) :=
      callAgent env fetch (default "" searchAgentId) query
        {| AgentCallOptions.timeout := Some (ApiSearchOptions.timeout options);
           AgentCallOptions.headers :=
             Some {[ "X-Jwt-Assertion" := default "" (env "JWT_TOKEN") ]} |} in
    (requests,
     match called with
     | Ok response =>
         Ok {| data := [ {| markdown := Some (AgentResponse.content response);
                            url := Some "" |} ] |}
     | Throw err => Throw err
     end).

(** [marketIntelligenceAgent.execute] *)
Definition marketIntelligence_execute (env : Env) (fetch : Fetch)
    (query : string) (metadataFilter : option string)
  : list Request.t * result AgentResponse.t :=
  let baseUrl := env "AGENT_API_URL" in
  if negb (truthy baseUrl) then
    ([], Throw (JsError "AGENT_API_URL environment variable is not set"))
  else
    let apiUrl := default "" baseUrl +:+ "/agents/chat" in
    let agentId := env "MARKET_INTELLIGENCE_AGENT_ID" in
    if negb (truthy agentId) then
      ([], Throw (JsError
             "MARKET_INTELLIGENCE_AGENT_ID environment variable is not set"))
    else
      let body :=
        {| AgentRequestBody.elzSessionId := Some "123";
           AgentRequestBody.elzRequestCount := Some 0;
           AgentRequestBody.userId := env "USER_ID";
           AgentRequestBody.agentId := default "" agentId;
           AgentRequestBody.content := query;
           AgentRequestBody.useHistory := Some false;
           AgentRequestBody.returnRagContext := Some false;
           AgentRequestBody.retrieverStrategy := Some "RAG";
           AgentRequestBody.metadataFilterExpression := metadataFilter;
           AgentRequestBody.chunkCount := Some 20 |} in
      let request :=
        {| Request.url := apiUrl;
           Request.method := "POST";
           Request.headers :=
             {[ "Content-Type" := "application/json";
                "accept" := "application/json";
                "X-Jwt-Assertion" := default "" (env "JWT_TOKEN") ]};
           Request.body := ChatBody body;
           Request.abortAfter := None |} in
      ([request], readResponse (fetch request)).

Definition callAgentFunction (env : Env) (fetch : Fetch)
    (options : AgentFunctionCallOptions.t) (args : list (string * string))
  : list Request.t * result AgentResponse.t :=
  let baseUrl := env "AGENT_API_URL" in
  if negb (truthy baseUrl) then
    ([], Throw (JsError "AGENT_API_URL environment variable is not set"))
  else
    let apiUrl :=
      default "" baseUrl +:+ "/agents/" +:+ AgentFunctionCallOptions.agentId options
        +:+ "/functions/" +:+ AgentFunctionCallOptions.functionName options
        +:+ "/call" in
    let body :=
      {| AgentFunctionRequest.agentId := AgentFunctionCallOptions.agentId options;
         AgentFunctionRequest.funcNameKey :=
           AgentFunctionCallOptions.functionName options;
         AgentFunctionRequest.arguments := args |} in
    let request :=
      {| Request.url := apiUrl;
         Request.method := "POST";
         Request.headers :=
           jsonHeaders (default ∅ (AgentFunctionCallOptions.headers options));
         Request.body := FunctionBody body;
         Request.abortAfter := None |} in
    ([request], readResponse (fetch request)).

(** The [execute] of the tool that [createFunctionTool] returns. *)
Definition createFunctionTool_execute (env : Env) (fetch : Fetch)
    (agentId functionName : string) (args : list (string * string))
  : list Request.t * result AgentResponse.t :=
  callAgentFunction env fetch
    {| AgentFunctionCallOptions.agentId := agentId;
       AgentFunctionCallOptions.functionName := functionName;
       AgentFunctionCallOptions.headers :=
         Some {[ "X-Jwt-Assertion" := default "" (env "JWT_TOKEN") ]};
       AgentFunctionCallOptions.timeout := None |}
    args.

(** [clientUPIDTool.execute]: the agent is
    [process.env.CLIENT_UPID_AGENT_ID || ''], the function Get_Client_UPID. *)
Definition clientUPID_execute (env : Env) (fetch : Fetch)
    (args : list (string * string)) : list Request.t * result AgentResponse.t :=
  createFunctionTool_execute env fetch
    (default "" (env "CLIENT_UPID_AGENT_ID")) "Get_Client_UPID" args.

(** The two tools as the engine uses them: it calls
    [tool.execute({ query: questionObj.question })] and awaits the result.
    [net] is [fetch]; what it answers may depend on the position of the
    branch that calls. *)
Definition marketIntelligenceAgent (env : Env) (net : list nat → Fetch) : Tool :=
  {| description := "A tool for gathering market intelligence about companies and industries. Use this for questions about market research, company analysis, and industry trends.";
     execute := λ path query,
       settled (marketIntelligence_execute env (net path) query None).2 |}.

Definition clientUPIDTool (env : Env) (net : list nat → Fetch) : Tool :=
  {| description := "Get the UPID (Unique Party ID) for a given client name. Use this when you need to look up client identifiers.";
     execute := λ path query,
       settled (clientUPID_execute env (net path) [("query", query)]).2 |}.

(** [researchTools] of the tools module. *)
Definition toolCatalog (env : Env) (net : list nat → Fetch)
  : list (string * Tool) :=
  [ ("marketIntelligence", marketIntelligenceAgent env net);
    ("getClientUPID", clientUPIDTool env net) ].

(** The engine with the tools of the module. *)
Definition serviceWorld (env : Env) (net : list nat → Fetch)
    (classify : list nat → string → outcome (string * string))
    (expand : list nat → string → string → list string → outcome (list Question))
  : World :=
  {| researchTools := toolCatalog env net;
     classify := classify;
     expand := expand |}.

(** A sample environment and a sample service. *)
Definition sampleEnv : Env := λ name,
  if decide (name = "AGENT_API_URL") then Some "https://agents.example"
  else if decide (name = "SEARCH_AGENT_ID") then Some "search-1"
  else if decide (name = "MARKET_INTELLIGENCE_AGENT_ID") then Some "market-1"
  else if decide (name = "JWT_TOKEN") then Some "token"
  else None.

Definition sampleFetch : Fetch := λ request,
  Ok {| Response.ok := true; Response.status := 200%N;
        Response.json :=
          Ok {| AgentResponse.content := "found";
                AgentResponse.source := None;
                AgentResponse.compliance_score := None |} |}.
(** * Properties *)

(** ** [Promise.all] and the fan-out *)

Lemma Promise_all_Resolved {A : Type} (ps : list (outcome A)) (l : list A) :
  Promise_all ps = Resolved l ↔ ps = Resolved <$> l.
Proof.
  revert l. induction ps as [|[a|] ps IH]; intros l; simpl.
  - split; [by intros [= <-] | by destruct l].
  - destruct (Promise_all ps) as [l'|] eqn:E.
    + split.
      * intros [= <-]. rewrite fmap_cons. f_equal. by apply IH.
      * destruct l as [|b l]; [done|]. rewrite fmap_cons. intros [= -> Hps].
        apply IH in Hps. by simplify_eq.
    + split; [done|]. destruct l as [|b l]; [done|]. rewrite fmap_cons.
      intros [= -> Hps]. by apply IH in Hps.
  - split; [done | by destruct l].
Qed.

Lemma Promise_all_Rejected {A : Type} (ps : list (outcome A)) :
  Promise_all ps = Rejected ↔ Rejected ∈ ps.
Proof.
  induction ps as [|[a|] ps IH]; simpl.
  - split; [done | by intros ?%elem_of_nil].
  - destruct (Promise_all ps) as [l'|] eqn:E.
    + split; [done|]. intros [?|Hin]%elem_of_cons; [done|].
      apply IH in Hin. done.
    + split; [|done]. intros _. apply elem_of_cons. right. by apply IH.
  - split; [|done]. intros _. apply elem_of_cons. by left.
Qed.

Section FanOut.
Context (task : nat → Question → option (outcome ResearchResult)).

Lemma fanOut_Some i qs ps :
  fanOut task i qs = Some ps →
  length ps = length qs ∧
  ∀ j q, qs !! j = Some q → ∃ p, task (i + j)%nat q = Some p ∧ ps !! j = Some p.
Proof.
  revert i ps. induction qs as [|q0 qs IH]; intros i ps; simpl.
  - intros [= <-]. split; [done|]. intros j q. by rewrite lookup_nil.
  - destruct (task i q0) as [p0|] eqn:E0; [|done].
    destruct (fanOut task (S i) qs) as [ps'|] eqn:E1; [|done].
    intros [= <-]. destruct (IH _ _ E1) as [Hlen Hall].
    split; [simpl; by rewrite Hlen|].
    intros [|j] q; simpl.
    + intros [= <-]. exists p0. by rewrite Nat.add_0_r.
    + intros Hq. destruct (Hall _ _ Hq) as (p & Hp & Hl).
      exists p. split; [|done]. by replace (i + S j)%nat with (S i + j)%nat by lia.
Qed.

Lemma fanOut_total i qs :
  (∀ j q, qs !! j = Some q → is_Some (task (i + j)%nat q)) →
  is_Some (fanOut task i qs).
Proof.
  revert i. induction qs as [|q0 qs IH]; intros i Hall; simpl; [by eexists|].
  destruct (Hall 0%nat q0 eq_refl) as [p0 Hp0].
  rewrite Nat.add_0_r in Hp0. rewrite Hp0.
  destruct (IH (S i)) as [ps Hps].
  { intros j q Hq. specialize (Hall (S j) q Hq).
    by replace (S i + j)%nat with (i + S j)%nat by lia. }
  rewrite Hps. by eexists.
Qed.

End FanOut.

Lemma fanOut_ext (task1 task2 : nat → Question → option (outcome ResearchResult))
    i qs :
  (∀ j q, qs !! j = Some q → task1 (i + j)%nat q = task2 (i + j)%nat q) →
  fanOut task1 i qs = fanOut task2 i qs.
Proof.
  revert i. induction qs as [|q0 qs IH]; intros i Hall; simpl; [done|].
  pose proof (Hall 0%nat q0 eq_refl) as H0. rewrite Nat.add_0_r in H0.
  rewrite H0, (IH (S i)); [done|].
  intros j q Hq. specialize (Hall (S j) q Hq).
  by replace (S i + j)%nat with (i + S j)%nat by lia.
Qed.

(** ** Unfolding the body *)

Lemma deepResearchBody_no_questions recurse w path node :
  questionsOf w path node = None →
  deepResearchBody recurse w path node = Some Rejected.
Proof.
  unfold questionsOf, deepResearchBody.
  destruct (determineResearchTool w path (Node.query node))
    as [[[tool|] reason]|]; try done.
  by destruct (generateFollowUpQuestions _ _ _ _ _ _).
Qed.

Lemma deepResearchBody_questions recurse w path node tool followUpQuestions :
  questionsOf w path node = Some (tool, followUpQuestions) →
  deepResearchBody recurse w path node =
    match fanOut (branch recurse tool path node) 0 followUpQuestions with
    | Some promises =>
        match Promise_all promises with
        | Resolved results => Some (Resolved (aggregate results))
        | Rejected => Some Rejected
        end
    | None => None
    end.
Proof.
  unfold questionsOf, deepResearchBody.
  destruct (determineResearchTool w path (Node.query node))
    as [[[tool'|] reason]|]; try done.
  destruct (generateFollowUpQuestions _ _ _ _ _ _); [|done].
  by intros [= -> ->].
Qed.

(** What a branch does, by cases on the tool call and the remaining depth. *)
Lemma branch_caught recurse tool path node i questionObj :
  execute tool (path ++ [i]) (question questionObj) = Rejected →
  branch recurse tool path node i questionObj =
    Some (Resolved {| learnings := []; sources := []; compliance_scores := Some [] |}).
Proof. unfold branch. by intros ->. Qed.

Lemma branch_descends recurse tool path node i questionObj response :
  execute tool (path ++ [i]) (question questionObj) = Resolved response →
  Node.depth node - 1 > 0 →
  branch recurse tool path node i questionObj =
    recurse (path ++ [i]) (childNode node questionObj response).
Proof. unfold branch. intros -> Hd. by rewrite decide_True. Qed.

Lemma branch_leaf recurse tool path node i questionObj response :
  execute tool (path ++ [i]) (question questionObj) = Resolved response →
  ¬ Node.depth node - 1 > 0 →
  branch recurse tool path node i questionObj =
    Some (Resolved
      {| learnings := Node.learnings node ++ [AgentResponse.content response];
         sources := Node.sources node ++
           Processed.sources (processAgentResponse response);
         compliance_scores :=
           if truthy (AgentResponse.compliance_score response)
           then (λ score, [score]) <$> AgentResponse.compliance_score response
           else None |}).
Proof. unfold branch. intros -> Hd. by rewrite decide_False. Qed.

(** ** Fuel *)

Lemma levels_childNode node questionObj response :
  Node.depth node - 1 > 0 →
  S (levels (childNode node questionObj response)) = levels node.
Proof. unfold levels, childNode. simpl. lia. Qed.

Lemma deepResearch_fuel_enough fuel w path node :
  (levels node ≤ fuel)%nat → is_Some (deepResearch_fuel fuel w path node).
Proof.
  revert path node. induction fuel as [|fuel IH]; intros path node Hfuel.
  { unfold levels in Hfuel. lia. }
  simpl. destruct (questionsOf w path node) as [[tool qs]|] eqn:Hq.
  - rewrite (deepResearchBody_questions _ _ _ _ _ _ Hq).
    destruct (fanOut_total (branch (deepResearch_fuel fuel w) tool path node) 0 qs)
      as [ps Hps].
    + intros j q _. simpl.
      destruct (execute tool (path ++ [j]) (question q)) as [response|] eqn:Hx.
      * destruct (decide (Node.depth node - 1 > 0)) as [Hd|Hd].
        -- rewrite (branch_descends _ _ _ _ _ _ _ Hx Hd). apply IH.
           pose proof (levels_childNode node q response Hd). lia.
        -- rewrite (branch_leaf _ _ _ _ _ _ _ Hx Hd). by eexists.
      * rewrite (branch_caught _ _ _ _ _ _ Hx). by eexists.
    + rewrite Hps. destruct (Promise_all ps); by eexists.
  - rewrite (deepResearchBody_no_questions _ _ _ _ Hq). by eexists.
Qed.

Lemma deepResearch_fuel_stable fuel1 fuel2 w path node :
  (levels node ≤ fuel1)%nat → (levels node ≤ fuel2)%nat →
  deepResearch_fuel fuel1 w path node = deepResearch_fuel fuel2 w path node.
Proof.
  revert fuel2 path node.
  induction fuel1 as [|fuel1 IH]; intros fuel2 path node H1 H2.
  { unfold levels in H1. lia. }
  destruct fuel2 as [|fuel2]; [unfold levels in H2; lia|].
  simpl. destruct (questionsOf w path node) as [[tool qs]|] eqn:Hq.
  - rewrite !(deepResearchBody_questions _ _ _ _ _ _ Hq).
    rewrite (fanOut_ext _ (branch (deepResearch_fuel fuel2 w) tool path node));
      [done|].
    intros j q _. simpl.
    destruct (execute tool (path ++ [j]) (question q)) as [response|] eqn:Hx.
    + destruct (decide (Node.depth node - 1 > 0)) as [Hd|Hd].
      * rewrite !(branch_descends _ _ _ _ _ _ _ Hx Hd).
        pose proof (levels_childNode node q response Hd). apply IH; lia.
      * by rewrite !(branch_leaf _ _ _ _ _ _ _ Hx Hd).
    + by rewrite !(branch_caught _ _ _ _ _ _ Hx).
  - by rewrite !(deepResearchBody_no_questions _ _ _ _ Hq).
Qed.

Lemma deepResearch_enough_fuel node :
  (levels node ≤ S (Z.to_nat (Node.depth node)))%nat.
Proof. unfold levels. lia. Qed.

(** ** The call tree *)

Lemma childCall_Some w path node i child :
  childCall w path node i = Some child →
  ∃ tool followUpQuestions questionObj response,
    questionsOf w path node = Some (tool, followUpQuestions) ∧
    followUpQuestions !! i = Some questionObj ∧
    execute tool (path ++ [i]) (question questionObj) = Resolved response ∧
    Node.depth node - 1 > 0 ∧
    child = childNode node questionObj response.
Proof.
  unfold childCall.
  destruct (questionsOf w path node) as [[tool qs]|]; [|done].
  destruct (qs !! i) as [q|] eqn:Hi; [|done].
  destruct (execute tool (path ++ [i]) (question q)) as [response|] eqn:Hx;
    [|done].
  case_decide; [|done]. intros [= <-]. by exists tool, qs, q, response.
Qed.

Lemma callAt_app w path node p1 p2 :
  callAt w path node (p1 ++ p2) =
    match callAt w path node p1 with
    | Some n1 => callAt w (path ++ p1) n1 p2
    | None => None
    end.
Proof.
  revert path node. induction p1 as [|i p1 IH]; intros path node; simpl.
  - by rewrite app_nil_r.
  - destruct (childCall w path node i) as [child|]; [|done].
    rewrite IH. by rewrite <- app_assoc.
Qed.

Lemma callAt_depth w path node p n :
  callAt w path node p = Some n →
  Node.depth n = Node.depth node - Z.of_nat (length p) ∧
  (p ≠ [] → Node.depth n > 0).
Proof.
  revert path node. induction p as [|i p IH]; intros path node; simpl.
  - intros [= <-]. split; [lia | done].
  - destruct (childCall w path node i) as [child|] eqn:Hc; [|done].
    apply childCall_Some in Hc as (tool & qs & q & response & _ & _ & _ & Hd & ->).
    intros Hn. destruct (IH _ _ Hn) as [Hdepth Hpos]. simpl in Hdepth.
    split; [lia|]. intros _. destruct p as [|i' p]; [|by apply Hpos].
    simpl in Hn. injection Hn as <-. simpl. lia.
Qed.

Lemma childCall_branch w path node i child :
  childCall w path node i = Some child →
  ∃ tool followUpQuestions questionObj,
    questionsOf w path node = Some (tool, followUpQuestions) ∧
    followUpQuestions !! i = Some questionObj ∧
    ∀ recurse,
      branch recurse tool path node i questionObj = recurse (path ++ [i]) child.
Proof.
  intros (tool & qs & q & response & Hq & Hi & Hx & Hd & ->)%childCall_Some.
  exists tool, qs, q. split_and!; [done..|].
  intros recurse. by apply branch_descends.
Qed.

Lemma Math_ceil_half_spec b :
  2 * Math_ceil_half b - 2 < b ∧ b ≤ 2 * Math_ceil_half b.
Proof.
  unfold Math_ceil_half.
  pose proof (Z.div_mod (b + 1) 2). pose proof (Z.mod_pos_bound (b + 1) 2). lia.
Qed.

Lemma callAt_breadth w path node p n :
  callAt w path node p = Some n →
  1 ≤ Node.breadth node →
  1 ≤ Node.breadth n ∧ Node.breadth n ≤ Node.breadth node.
Proof.
  revert path node. induction p as [|i p IH]; intros path node; simpl.
  - intros [= <-]. lia.
  - destruct (childCall w path node i) as [child|] eqn:Hc; [|done].
    apply childCall_Some in Hc as (tool & qs & q & response & _ & _ & _ & _ & ->).
    intros Hn Hb. pose proof (Math_ceil_half_spec (Node.breadth node)).
    destruct (IH _ _ Hn) as [H1 H2]; simpl in *; lia.
Qed.

Lemma branch_total fuel w tool path node i questionObj :
  (levels node ≤ S fuel)%nat →
  is_Some (branch (deepResearch_fuel fuel w) tool path node i questionObj).
Proof.
  intros Hfuel.
  destruct (execute tool (path ++ [i]) (question questionObj))
    as [response|] eqn:Hx.
  - destruct (decide (Node.depth node - 1 > 0)) as [Hd|Hd].
    + rewrite (branch_descends _ _ _ _ _ _ _ Hx Hd).
      apply deepResearch_fuel_enough.
      pose proof (levels_childNode node questionObj response Hd). lia.
    + rewrite (branch_leaf _ _ _ _ _ _ _ Hx Hd). by eexists.
  - rewrite (branch_caught _ _ _ _ _ _ Hx). by eexists.
Qed.

Lemma oracleFails_questionsOf w path node :
  oracleFails w path node = true → questionsOf w path node = None.
Proof.
  unfold oracleFails, questionsOf.
  destruct (determineResearchTool w path (Node.query node))
    as [[[tool|] reason]|]; try done.
  by destruct (generateFollowUpQuestions _ _ _ _ _ _).
Qed.

(** A rejection below a node reaches the node: if one task of the fan-out
    rejects, so does the call. *)
Lemma deepResearch_fuel_branch_rejected fuel w path node tool qs i q :
  (levels node ≤ S fuel)%nat →
  questionsOf w path node = Some (tool, qs) →
  qs !! i = Some q →
  branch (deepResearch_fuel fuel w) tool path node i q = Some Rejected →
  deepResearch_fuel (S fuel) w path node = Some Rejected.
Proof.
  intros Hfuel Hq Hi Hb. simpl.
  rewrite (deepResearchBody_questions _ _ _ _ _ _ Hq).
  destruct (fanOut_total (branch (deepResearch_fuel fuel w) tool path node) 0 qs)
    as [ps Hps].
  { intros j qj _. by apply branch_total. }
  rewrite Hps. apply fanOut_Some in Hps as [_ Hall].
  destruct (Hall _ _ Hi) as (p & Hp & Hl). simpl in Hp.
  rewrite Hb in Hp. injection Hp as <-.
  assert (Promise_all ps = Rejected) as ->; [|done].
  apply Promise_all_Rejected. by eapply list_elem_of_lookup_2.
Qed.

Lemma oracle_failure_propagates w path node p failing fuel :
  callAt w path node p = Some failing →
  oracleFails w (path ++ p) failing = true →
  (levels node ≤ fuel)%nat →
  deepResearch_fuel fuel w path node = Some Rejected.
Proof.
  revert path node fuel.
  induction p as [|i p IH]; intros path node fuel; simpl.
  - intros [= <-]. rewrite app_nil_r. intros Hf%oracleFails_questionsOf Hfuel.
    destruct fuel as [|fuel]; [unfold levels in Hfuel; lia|]. simpl.
    by apply deepResearchBody_no_questions.
  - destruct (childCall w path node i) as [child|] eqn:Hc; [|done].
    intros Hn Hf Hfuel.
    destruct fuel as [|fuel]; [unfold levels in Hfuel; lia|].
    pose proof Hc as (tool & qs & q & response & Hq & Hi & Hx & Hd & ->)%childCall_Some.
    eapply deepResearch_fuel_branch_rejected; [done..|].
    rewrite (branch_descends _ _ _ _ _ _ _ Hx Hd).
    apply (IH _ _ _ Hn).
    + by rewrite <- app_assoc.
    + pose proof (levels_childNode node q response Hd). lia.
Qed.

(** ** Error propagation *)

(** C1.  If a call of [deepResearch] reached by the run has a failing
    oracle call (tool selection or question generation), then that call
    rejects without starting any branch, every call on the way up to the
    root rejects, and so the top-level call rejects instead of returning an
    aggregated result. *)
Theorem oracle_failure_rejects_run (w : World) (rootNode failing : Node.t)
    (p : list nat) :
  callAt w [] rootNode p = Some failing →
  oracleFails w p failing = true →
  deepResearch w rootNode = Some Rejected ∧
  (∀ i, childCall w p failing i = None) ∧
  ∀ p1 p2 ancestor, p = p1 ++ p2 →
    callAt w [] rootNode p1 = Some ancestor →
    ∀ fuel, (levels ancestor ≤ fuel)%nat →
      deepResearch_fuel fuel w p1 ancestor = Some Rejected.
Proof.
  intros Hcall Hfail. split_and!.
  - eapply oracle_failure_propagates; [done..|]. apply deepResearch_enough_fuel.
  - intros i. unfold childCall.
    by rewrite (oracleFails_questionsOf _ _ _ Hfail).
  - intros p1 p2 ancestor -> Hanc fuel Hfuel.
    rewrite callAt_app, Hanc in Hcall. simpl in Hcall.
    by eapply oracle_failure_propagates.
Qed.

Lemma oracle_failure_rejects_run_witness :
  deepResearch (sampleWorld [[1%nat]] []) (root "X" 2 2) = Some Rejected.
Proof.
  refine (proj1 (oracle_failure_rejects_run (sampleWorld [[1%nat]] [])
            (root "X" 2 2)
            (childNode (root "X" 2 2) (mkQuestion "q1" "r1")
               (AgentResponse.mk "answer to q1"
                  (Some [mkSource "report.pdf" "/docs/report.pdf"]) (Some "0.9")))
            [1%nat] _ _)).
  - vm_compute. reflexivity.
  - vm_compute. reflexivity.
Defined.

(** ** Termination and the breadth/depth policy *)

(** C7.  Every call of [deepResearch] terminates, for every integer depth
    and so for every depth ≥ 0: the call settles within [levels node] nested
    calls and more fuel does not change what it settles to.  Each recursive
    call is the one a branch makes with [depth - 1], and is made only when
    that value is strictly positive; so the call reached after [length p]
    levels has depth [depth - length p], which is positive below the root,
    and the descent stops before [levels node] levels. *)
Theorem deepResearch_terminates (w : World) (node : Node.t) :
  (∃ settled, deepResearch w node = Some settled ∧
     ∀ fuel, (levels node ≤ fuel)%nat →
       deepResearch_fuel fuel w [] node = Some settled) ∧
  (∀ path n i child, childCall w path n i = Some child →
     Node.depth child = Node.depth n - 1 ∧ Node.depth child > 0 ∧
     ∃ tool followUpQuestions questionObj,
       questionsOf w path n = Some (tool, followUpQuestions) ∧
       followUpQuestions !! i = Some questionObj ∧
       ∀ recurse,
         branch recurse tool path n i questionObj = recurse (path ++ [i]) child) ∧
  (∀ p n, callAt w [] node p = Some n →
     Node.depth n = Node.depth node - Z.of_nat (length p) ∧
     (p ≠ [] → Node.depth n > 0) ∧
     (length p < levels node)%nat).
Proof.
  split_and!.
  - destruct (deepResearch_fuel_enough _ w [] node (deepResearch_enough_fuel node))
      as [settled Hs].
    exists settled. split; [done|]. intros fuel Hfuel. rewrite <- Hs.
    apply deepResearch_fuel_stable; [done|]. apply deepResearch_enough_fuel.
  - intros path n i child Hc.
    pose proof Hc as (tool & qs & q & response & _ & _ & _ & Hd & ->)%childCall_Some.
    simpl. split_and!; [done..|]. by apply childCall_branch.
  - intros p n Hn. destruct (callAt_depth _ _ _ _ _ Hn) as [Hdepth Hpos].
    split_and!; [done..|]. unfold levels.
    destruct p as [|i p]; [simpl; lia|].
    assert (Node.depth n > 0) by (by apply Hpos). lia.
Qed.

(** C6.  In a run started with breadth ≥ 1, every recursive call is made
    with breadth [Math.ceil(breadth / 2)], the least integer that is at
    least half the breadth of the calling node, and with depth [depth - 1];
    the breadth never grows on the way down (it is at most that of every
    call above it) and is at least 1 at every call, so it does not reach 0
    while the recursion goes on. *)
Theorem child_breadth_halves (w : World) (rootNode : Node.t) (p1 p2 : list nat)
    (n2 : Node.t) :
  1 ≤ Node.breadth rootNode →
  callAt w [] rootNode (p1 ++ p2) = Some n2 →
  (∃ n1, callAt w [] rootNode p1 = Some n1 ∧
         Node.breadth n2 ≤ Node.breadth n1) ∧
  1 ≤ Node.breadth n2 ∧
  ∀ i child, childCall w (p1 ++ p2) n2 i = Some child →
    Node.breadth child = Math_ceil_half (Node.breadth n2) ∧
    2 * Node.breadth child - 2 < Node.breadth n2 ∧
    Node.breadth n2 ≤ 2 * Node.breadth child ∧
    Node.depth child = Node.depth n2 - 1 ∧
    ∃ tool followUpQuestions questionObj,
      questionsOf w (p1 ++ p2) n2 = Some (tool, followUpQuestions) ∧
      followUpQuestions !! i = Some questionObj ∧
      ∀ recurse,
        branch recurse tool (p1 ++ p2) n2 i questionObj =
          recurse ((p1 ++ p2) ++ [i]) child.
Proof.
  intros Hb Hn2. pose proof Hn2 as Hsplit. rewrite callAt_app in Hsplit.
  destruct (callAt w [] rootNode p1) as [n1|] eqn:Hn1; [|done].
  simpl in Hsplit.
  destruct (callAt_breadth _ _ _ _ _ Hn1 Hb) as [Hb1 _].
  destruct (callAt_breadth _ _ _ _ _ Hsplit Hb1) as [_ Hle].
  destruct (callAt_breadth _ _ _ _ _ Hn2 Hb) as [Hb2 _].
  split_and!; [by exists n1 | done |].
  intros i child Hc.
  pose proof Hc as (tool & qs & q & response & _ & _ & _ & _ & ->)%childCall_Some.
  pose proof (Math_ceil_half_spec (Node.breadth n2)) as [? ?].
  simpl. split_and!; [done..|]. by apply childCall_branch.
Qed.

Lemma child_breadth_halves_witness :
  ∃ n2, callAt (sampleWorld [] []) [] (root "X" 5 3) [0; 1]%nat = Some n2 ∧
        1 ≤ Node.breadth n2.
Proof.
  eexists. split; [vm_compute; reflexivity|].
  refine (proj1 (proj2 (child_breadth_halves (sampleWorld [] []) (root "X" 5 3)
                          [0%nat] [1%nat] _ _ _))).
  - simpl. lia.
  - vm_compute. reflexivity.
Defined.

(** ** Aggregation *)

Lemma first_occurrences_filter (P : string → Prop) `{!∀ x, Decision (P x)} xs :
  first_occurrences (filter P xs) = filter P (first_occurrences xs).
Proof.
  induction xs as [|x xs IH]; [done|].
  cbn [first_occurrences]. rewrite !filter_cons.
  destruct (decide (P x)) as [HP|HP]; cbn [first_occurrences].
  - f_equal. rewrite IH, !list_filter_filter.
    apply list_filter_iff. intros y. tauto.
  - rewrite IH. symmetry. apply list_filter_filter_l. by intros y Hy ->.
Qed.

Lemma filter_not_elem_of_nil (xs : list string) :
  filter (λ x, x ∉ @nil string) xs = xs.
Proof.
  induction xs as [|x xs IH]; [done|].
  rewrite filter_cons_True; [by rewrite IH | by intros ?%elem_of_nil].
Qed.

Lemma foldl_add_first_occurrences s xs :
  foldl JSSet.add s xs = s ++ first_occurrences (filter (λ x, x ∉ s) xs).
Proof.
  revert s. induction xs as [|x xs IH]; intros s; cbn [foldl].
  - by rewrite filter_nil, app_nil_r.
  - rewrite IH, filter_cons. unfold JSSet.add.
    destruct (decide (x ∈ s)) as [Hin|Hin].
    + by rewrite decide_False by (by intros Hn).
    + rewrite decide_True by done. cbn [first_occurrences].
      rewrite <- app_assoc. simpl. do 2 f_equal.
      rewrite <- first_occurrences_filter. f_equal.
      rewrite list_filter_filter. apply list_filter_iff.
      intros y. rewrite not_elem_of_app, list_elem_of_singleton. tauto.
Qed.

Lemma unique_first_occurrences xs : unique xs = first_occurrences xs.
Proof.
  unfold unique, JSSet.to_array, JSSet.of_array, JSSet.empty.
  by rewrite foldl_add_first_occurrences, filter_not_elem_of_nil.
Qed.

Lemma first_occurrences_elem xs x : x ∈ first_occurrences xs ↔ x ∈ xs.
Proof.
  induction xs as [|y xs IH]; [done|]. cbn [first_occurrences].
  rewrite !elem_of_cons, list_elem_of_filter, IH.
  destruct (decide (x = y)); tauto.
Qed.

Lemma first_occurrences_NoDup xs : NoDup (first_occurrences xs).
Proof.
  induction xs as [|y xs IH]; cbn [first_occurrences]; [by apply NoDup_nil|].
  apply NoDup_cons. split; [|by apply NoDup_filter].
  rewrite list_elem_of_filter. intros [Hne _]. by apply Hne.
Qed.

Lemma first_occurrences_sublist xs : first_occurrences xs `sublist_of` xs.
Proof.
  induction xs as [|y xs IH]; [done|]. cbn [first_occurrences].
  apply sublist_skip. etrans; [apply sublist_filter | done].
Qed.

Lemma unique_elem xs x : x ∈ unique xs ↔ x ∈ xs.
Proof. rewrite unique_first_occurrences. apply first_occurrences_elem. Qed.

Lemma unique_NoDup xs : NoDup (unique xs).
Proof. rewrite unique_first_occurrences. apply first_occurrences_NoDup. Qed.

Lemma aggregate_contains results r :
  r ∈ results →
  learnings r ⊆ learnings (aggregate results) ∧
  sources r ⊆ sources (aggregate results) ∧
  default [] (compliance_scores r) ⊆
    default [] (compliance_scores (aggregate results)).
Proof.
  intros Hr. unfold aggregate. simpl. split_and!; intros x Hx.
  - apply unique_elem, list_elem_of_bind. by exists r.
  - apply unique_elem, list_elem_of_bind. by exists r.
  - apply list_elem_of_bind. by exists r.
Qed.

Lemma aggregate_all_empty results :
  (∀ r, r ∈ results →
     r = {| learnings := []; sources := []; compliance_scores := Some [] |}) →
  aggregate results =
    {| learnings := []; sources := []; compliance_scores := Some [] |}.
Proof.
  intros Hall.
  assert (results ≫= learnings = [] ∧ results ≫= sources = [] ∧
          results ≫= (λ r, default [] (compliance_scores r)) = [])
    as (Hl & Hs & Hc).
  { induction results as [|r results IH]; [done|].
    rewrite !bind_cons.
    destruct IH as (-> & -> & ->).
    { intros r' Hr'. apply Hall. by right. }
    by rewrite (Hall r) by left. }
  unfold aggregate. simpl. by rewrite Hl, Hs, Hc.
Qed.


(** ** Branch isolation *)

Lemma fanOut_all_resolved (task : nat → Question → option (outcome ResearchResult))
    i qs :
  (∀ j q, qs !! j = Some q → ∃ r, task (i + j)%nat q = Some (Resolved r)) →
  ∃ results,
    fanOut task i qs = Some (Resolved <$> results) ∧
    length results = length qs ∧
    ∀ j q, qs !! j = Some q →
      ∃ r, results !! j = Some r ∧ task (i + j)%nat q = Some (Resolved r).
Proof.
  revert i. induction qs as [|q0 qs IH]; intros i Hall.
  - exists []. split_and!; [done..|]. intros j q. by rewrite lookup_nil.
  - destruct (Hall 0%nat q0 eq_refl) as [r0 Hr0].
    destruct (IH (S i)) as (results & Hfan & Hlen & Hres).
    { intros j q Hq. destruct (Hall (S j) q Hq) as [r Hr]. exists r.
      by replace (S i + j)%nat with (i + S j)%nat by lia. }
    exists (r0 :: results). split_and!.
    + simpl. rewrite Nat.add_0_r in Hr0. by rewrite Hr0, Hfan.
    + simpl. by rewrite Hlen.
    + intros [|j] q Hq.
      * injection Hq as <-. by exists r0.
      * destruct (Hres j q Hq) as (r & Hr & Ht). exists r. split; [done|].
        by replace (i + S j)%nat with (S i + j)%nat by lia.
Qed.

Lemma deepResearch_fuel_all_resolved fuel w path node tool qs :
  questionsOf w path node = Some (tool, qs) →
  (∀ j q, qs !! j = Some q →
     ∃ r, branch (deepResearch_fuel fuel w) tool path node j q =
            Some (Resolved r)) →
  ∃ results,
    deepResearch_fuel (S fuel) w path node = Some (Resolved (aggregate results)) ∧
    length results = length qs ∧
    ∀ j q, qs !! j = Some q →
      ∃ r, results !! j = Some r ∧
           branch (deepResearch_fuel fuel w) tool path node j q =
             Some (Resolved r).
Proof.
  intros Hq Hall.
  destruct (fanOut_all_resolved
              (branch (deepResearch_fuel fuel w) tool path node) 0 qs Hall)
    as (results & Hfan & Hlen & Hres).
  exists results. split_and!; [|done..].
  simpl. rewrite (deepResearchBody_questions _ _ _ _ _ _ Hq), Hfan.
  by rewrite (proj2 (Promise_all_Resolved _ results) eq_refl).
Qed.

(** C2.  When the tool call of one follow-up question throws, its branch
    delivers { learnings: [], sources: [], compliance_scores: [] }; provided
    the other branches deliver their results, the call resolves (it does not
    reject) to the aggregation of all the branch results, in which the
    failed branch holds the empty result and every learning, source and
    score of every other branch appears. *)
Theorem branch_failure_is_isolated (fuel : nat) (w : World) (path : list nat)
    (node : Node.t) (tool : Tool) (followUpQuestions : list Question)
    (i : nat) (questionObj : Question) :
  questionsOf w path node = Some (tool, followUpQuestions) →
  followUpQuestions !! i = Some questionObj →
  execute tool (path ++ [i]) (question questionObj) = Rejected →
  (∀ j q, j ≠ i → followUpQuestions !! j = Some q →
     ∃ r, branch (deepResearch_fuel fuel w) tool path node j q =
            Some (Resolved r)) →
  branch (deepResearch_fuel fuel w) tool path node i questionObj =
    Some (Resolved {| learnings := []; sources := []; compliance_scores := Some [] |}) ∧
  ∃ results,
    deepResearch_fuel (S fuel) w path node = Some (Resolved (aggregate results)) ∧
    length results = length followUpQuestions ∧
    results !! i =
      Some {| learnings := []; sources := []; compliance_scores := Some [] |} ∧
    ∀ j q, followUpQuestions !! j = Some q →
      ∃ r, results !! j = Some r ∧
           branch (deepResearch_fuel fuel w) tool path node j q =
             Some (Resolved r) ∧
           learnings r ⊆ learnings (aggregate results) ∧
           sources r ⊆ sources (aggregate results) ∧
           default [] (compliance_scores r) ⊆
             default [] (compliance_scores (aggregate results)).
Proof.
  intros Hq Hi Hx Hothers.
  pose proof (branch_caught (deepResearch_fuel fuel w) _ _ node _ _ Hx) as Hb.
  split; [done|].
  destruct (deepResearch_fuel_all_resolved fuel w path node tool
              followUpQuestions Hq) as (results & Hrun & Hlen & Hres).
  { intros j q Hj. destruct (decide (j = i)) as [->|Hne]; [|by apply Hothers].
    rewrite Hi in Hj. injection Hj as <-. by eexists. }
  exists results. split_and!; [done..| |].
  - destruct (Hres _ _ Hi) as (r & Hr & Hbr). rewrite Hb in Hbr. by simplify_eq.
  - intros j q Hj. destruct (Hres _ _ Hj) as (r & Hr & Hbr).
    exists r. split_and!; [done..| | |];
      by eapply aggregate_contains, list_elem_of_lookup_2.
Qed.

Lemma branch_failure_is_isolated_witness :
  deepResearch (sampleWorld [] [[1%nat]]) (root "X" 3 1) =
    Some (Resolved
      {| learnings := ["answer to q0"; "answer to q2"];
         sources := ["report.pdf (/docs/report.pdf)"];
         compliance_scores := Some ["0.9"; "0.9"] |}).
Proof.
  destruct (branch_failure_is_isolated 1 (sampleWorld [] [[1%nat]]) []
              (root "X" 3 1) (sampleTool [[1%nat]]) sampleQuestions 1
              (mkQuestion "q1" "r1"))
    as (_ & results & Hrun & _).
  - vm_compute. reflexivity.
  - vm_compute. reflexivity.
  - vm_compute. reflexivity.
  - intros [|[|[|j]]] q Hne Hq; [| done | |done].
    + eexists. vm_compute. reflexivity.
    + eexists. vm_compute. reflexivity.
  - vm_compute. reflexivity.
Defined.

(** C10.  When the tool call of every follow-up question of a call fails,
    in particular when there is no follow-up question, the call resolves to
    { learnings: [], sources: [], compliance_scores: [] } whatever learnings
    and sources it was given; conversely a result that holds any learning or
    source comes from a call with at least one branch whose tool call
    succeeded. *)
Theorem all_branches_failed_empty_result (fuel : nat) (w : World)
    (path : list nat) (node : Node.t) (tool : Tool)
    (followUpQuestions : list Question) :
  questionsOf w path node = Some (tool, followUpQuestions) →
  ((∀ j q, followUpQuestions !! j = Some q →
      execute tool (path ++ [j]) (question q) = Rejected) →
   deepResearch_fuel (S fuel) w path node =
     Some (Resolved {| learnings := []; sources := []; compliance_scores := Some [] |})) ∧
  (∀ result x,
     deepResearch_fuel (S fuel) w path node = Some (Resolved result) →
     x ∈ learnings result ∨ x ∈ sources result →
     ∃ j q response, followUpQuestions !! j = Some q ∧
       execute tool (path ++ [j]) (question q) = Resolved response).
Proof.
  intros Hq.
  assert ((∀ j q, followUpQuestions !! j = Some q →
             execute tool (path ++ [j]) (question q) = Rejected) →
          deepResearch_fuel (S fuel) w path node =
            Some (Resolved {| learnings := []; sources := [];
                              compliance_scores := Some [] |})) as Hempty.
  { intros Hall.
    destruct (deepResearch_fuel_all_resolved fuel w path node tool
                followUpQuestions Hq) as (results & -> & Hlen & Hres).
    { intros j q Hj. eexists. by apply branch_caught, Hall. }
    do 2 f_equal. apply aggregate_all_empty. intros r Hr.
    apply list_elem_of_lookup_1 in Hr as [j Hj].
    destruct (lookup_lt_is_Some_2 followUpQuestions j) as [q Hqj].
    { rewrite <- Hlen. by eapply lookup_lt_Some. }
    destruct (Hres _ _ Hqj) as (r' & Hr' & Hb).
    rewrite (branch_caught _ _ _ _ _ _ (Hall _ _ Hqj)) in Hb. by simplify_eq. }
  split; [done|].
  intros result x Hrun Hx.
  destruct (decide (Exists (λ jq, isResolved
                                    (execute tool (path ++ [jq.1]) (question jq.2)))
                      (imap pair followUpQuestions))) as [Hex|Hnone].
  - apply Exists_exists in Hex as ([j q] & Hin & Hne).
    apply elem_of_lookup_imap in Hin as (j' & q' & [= -> ->] & Hj). simpl in Hne.
    destruct (execute tool (path ++ [j']) (question q')) as [response|] eqn:E;
      [|done].
    by exists j', q', response.
  - rewrite Hempty in Hrun.
    + injection Hrun as <-. simpl in Hx.
      destruct Hx as [Hx|Hx]; by apply elem_of_nil in Hx.
    + intros j q Hj.
      destruct (execute tool (path ++ [j]) (question q)) as [response|] eqn:E;
        [|done].
      exfalso. apply Hnone, Exists_exists. exists (j, q). split.
      * by apply (elem_of_lookup_imap_2 pair).
      * simpl. by rewrite E.
Qed.

Lemma all_branches_failed_empty_result_witness :
  deepResearch_fuel 1 (sampleWorld [] [[0]; [1]; [2]]%nat) []
    {| Node.query := "X"; Node.breadth := 3; Node.depth := 1;
       Node.learnings := ["known"]; Node.sources := ["file (path)"] |} =
    Some (Resolved {| learnings := []; sources := []; compliance_scores := Some [] |}).
Proof.
  refine (proj1 (all_branches_failed_empty_result 0
                   (sampleWorld [] [[0]; [1]; [2]]%nat) []
                   {| Node.query := "X"; Node.breadth := 3; Node.depth := 1;
                      Node.learnings := ["known"];
                      Node.sources := ["file (path)"] |}
                   (sampleTool [[0]; [1]; [2]]%nat) sampleQuestions _) _).
  - vm_compute. reflexivity.
  - intros [|[|[|j]]] q Hq; [vm_compute; reflexivity..|done].
Defined.

(** ** Order of the aggregated lists *)

Section PromiseAllValues.
Context {A : Type}.
Implicit Types (values : list (option A)) (fulfilled : list (nat * A)).

Lemma settle_length values fulfilled :
  length (foldl (λ values s, <[s.1 := Some s.2]> values) values fulfilled) =
    length values.
Proof.
  revert values. induction fulfilled as [|s fulfilled IH]; intros values;
    [done|].
  cbn [foldl]. by rewrite IH, length_insert.
Qed.

Lemma settle_lookup_other values fulfilled k :
  k ∉ fulfilled.*1 →
  foldl (λ values s, <[s.1 := Some s.2]> values) values fulfilled !! k =
    values !! k.
Proof.
  revert values. induction fulfilled as [|s fulfilled IH]; intros values;
    [done|].
  rewrite fmap_cons, not_elem_of_cons. intros [Hne Hk].
  cbn [foldl]. rewrite IH by done. by apply list_lookup_insert_ne.
Qed.

Lemma settle_lookup_at values fulfilled k v :
  NoDup fulfilled.*1 →
  (k, v) ∈ fulfilled →
  (k < length values)%nat →
  foldl (λ values s, <[s.1 := Some s.2]> values) values fulfilled !! k =
    Some (Some v).
Proof.
  revert values. induction fulfilled as [|s fulfilled IH]; intros values.
  { by intros _ ?%elem_of_nil. }
  rewrite fmap_cons, NoDup_cons, elem_of_cons. intros [Hs Hnd] [<-|Hin] Hk.
  - cbn [foldl]. rewrite settle_lookup_other by done.
    by apply list_lookup_insert_eq.
  - cbn [foldl]. apply IH; [done..|]. by rewrite length_insert.
Qed.

(** Whatever the order in which the promises fulfil, the array of values is
    in the order of the input array. *)
Lemma Promise_all_values_in_order (results : list A) fulfilled :
  fulfilled ≡ₚ imap pair results →
  Promise_all_values (length results) fulfilled = Some <$> results.
Proof.
  intros Hperm. unfold Promise_all_values.
  assert (NoDup fulfilled.*1) as Hnd.
  { rewrite Hperm, fmap_imap.
    rewrite (imap_ext _ (λ j _, id j)) by done.
    rewrite imap_seq_0, list_fmap_id. apply NoDup_seq. }
  apply list_eq. intros k. rewrite list_lookup_fmap.
  destruct (results !! k) as [v|] eqn:Hk; simpl.
  - apply settle_lookup_at; [done| |].
    + rewrite Hperm. by apply (elem_of_lookup_imap_2 pair).
    + rewrite length_replicate. by eapply lookup_lt_Some.
  - apply lookup_ge_None. rewrite settle_length, length_replicate.
    by apply lookup_ge_None.
Qed.

End PromiseAllValues.

Lemma fanOut_in_order (task : nat → Question → option (outcome ResearchResult))
    (qs : list Question) (results : list ResearchResult) :
  length results = length qs →
  (∀ j q r, qs !! j = Some q → results !! j = Some r →
            task j q = Some (Resolved r)) →
  fanOut task 0 qs = Some (Resolved <$> results).
Proof.
  intros Hlen Hall.
  destruct (fanOut_all_resolved task 0 qs) as (results' & -> & Hlen' & Hres).
  { intros j q Hq. destruct (lookup_lt_is_Some_2 results j) as [r Hr].
    - rewrite Hlen. by eapply lookup_lt_Some.
    - exists r. by apply Hall. }
  do 2 f_equal. apply list_eq. intros j.
  destruct (qs !! j) as [q|] eqn:Hq.
  - destruct (Hres _ _ Hq) as (r' & -> & Hr').
    destruct (lookup_lt_is_Some_2 results j) as [r Hr].
    { rewrite Hlen. by eapply lookup_lt_Some. }
    rewrite Hr. simpl in Hr'. rewrite (Hall _ _ _ Hq Hr) in Hr'. congruence.
  - apply lookup_ge_None in Hq.
    rewrite (proj2 (lookup_ge_None results' j)) by lia.
    rewrite (proj2 (lookup_ge_None results j)); [done|lia].
Qed.

(** C9.  For given branch results the aggregated lists are determined.
    Take a call of [deepResearch] whose two oracle calls succeed, and let
    [results] hold, at each index, what the branch of the follow-up question
    of that index delivers.  Then the promises that the call hands to
    [Promise.all] are those of the branches in the order of the follow-up
    questions; in whatever order the branches complete, the array that
    [Promise.all] fills is [results], which is what the call aggregates; and
    the call resolves to a result whose [learnings] and [sources] hold each
    distinct string once, at the place where it first occurs in the
    concatenation of the branch lists in that order (a sublist of that
    concatenation). *)
Theorem aggregation_order_is_deterministic (fuel : nat) (w : World)
    (path : list nat) (node : Node.t) (tool : Tool)
    (followUpQuestions : list Question) (results : list ResearchResult) :
  questionsOf w path node = Some (tool, followUpQuestions) →
  length results = length followUpQuestions →
  (∀ i questionObj r,
     followUpQuestions !! i = Some questionObj → results !! i = Some r →
     branch (deepResearch_fuel fuel w) tool path node i questionObj =
       Some (Resolved r)) →
  ∃ promises result,
    fanOut (branch (deepResearch_fuel fuel w) tool path node) 0
      followUpQuestions = Some promises ∧
    promises = Resolved <$> results ∧
    (∀ fulfilled, fulfilled ≡ₚ imap pair results →
       Promise_all_values (length promises) fulfilled = Some <$> results) ∧
    Promise_all promises = Resolved results ∧
    deepResearch_fuel (S fuel) w path node = Some (Resolved result) ∧
    compliance_scores result =
      Some (results ≫= (λ r, default [] (compliance_scores r))) ∧
    learnings result = first_occurrences (results ≫= learnings) ∧
    sources result = first_occurrences (results ≫= sources) ∧
    learnings result `sublist_of` results ≫= learnings ∧
    sources result `sublist_of` results ≫= sources.
Proof.
  intros Hq Hlen Hall.
  pose proof (fanOut_in_order _ _ _ Hlen Hall) as Hfan.
  assert (Promise_all (Resolved <$> results) = Resolved results) as Hpa
    by by apply Promise_all_Resolved.
  exists (Resolved <$> results), (aggregate results). split_and!.
  - done.
  - done.
  - intros fulfilled Hperm. rewrite length_fmap.
    by apply Promise_all_values_in_order.
  - done.
  - cbn [deepResearch_fuel].
    rewrite (deepResearchBody_questions _ _ _ _ _ _ Hq), Hfan. by rewrite Hpa.
  - done.
  - apply unique_first_occurrences.
  - apply unique_first_occurrences.
  - simpl. rewrite unique_first_occurrences. apply first_occurrences_sublist.
  - simpl. rewrite unique_first_occurrences. apply first_occurrences_sublist.
Qed.

Lemma aggregation_order_is_deterministic_witness :
  ∃ promises result,
    fanOut (branch (deepResearch_fuel 1 (sampleWorld [] [[1%nat]])) (sampleTool [[1%nat]])
              [] (root "X" 3 1)) 0 sampleQuestions = Some promises ∧
    promises =
      Resolved <$>
        [ {| learnings := ["answer to q0"];
             sources := ["report.pdf (/docs/report.pdf)"];
             compliance_scores := Some ["0.9"] |};
          {| learnings := []; sources := []; compliance_scores := Some [] |};
          {| learnings := ["answer to q2"];
             sources := ["report.pdf (/docs/report.pdf)"];
             compliance_scores := Some ["0.9"] |} ] ∧
    deepResearch_fuel 2 (sampleWorld [] [[1%nat]]) [] (root "X" 3 1) =
      Some (Resolved result) ∧
    learnings result = ["answer to q0"; "answer to q2"] ∧
    sources result = ["report.pdf (/docs/report.pdf)"].
Proof.
  destruct (aggregation_order_is_deterministic 1 (sampleWorld [] [[1%nat]]) []
              (root "X" 3 1) (sampleTool [[1%nat]]) sampleQuestions
              [ {| learnings := ["answer to q0"];
                   sources := ["report.pdf (/docs/report.pdf)"];
                   compliance_scores := Some ["0.9"] |};
                {| learnings := []; sources := []; compliance_scores := Some [] |};
                {| learnings := ["answer to q2"];
                   sources := ["report.pdf (/docs/report.pdf)"];
                   compliance_scores := Some ["0.9"] |} ])
    as (promises & result & Hfan & Hps & _ & _ & Hrun & _ & Hl & Hs & _).
  - vm_compute. reflexivity.
  - reflexivity.
  - intros [|[|[|i]]] questionObj r; simpl; intros [= <-] [= <-];
      vm_compute; reflexivity.
  - exists promises, result. split_and!; [done..| |].
    + rewrite Hl. vm_compute. reflexivity.
    + rewrite Hs. vm_compute. reflexivity.
Defined.

(** ** Leaf branches *)

(** C5, as the specification words it, fails: a response without a score
    gives a leaf result whose [compliance_scores] is absent, not [[]], and a
    response whose score is the empty string gives an absent list as well,
    not the list holding that score. *)
Lemma leaf_scores_counterexample :
  branch (λ _ _, None)
    (mkTool "tool" (λ _ _, Resolved (AgentResponse.mk "finding" None None)))
    [] (root "X" 1 1) 0 (mkQuestion "q" "r") ≠
    Some (Resolved (spec_leafResult [] [] (AgentResponse.mk "finding" None None))) ∧
  branch (λ _ _, None)
    (mkTool "tool" (λ _ _, Resolved (AgentResponse.mk "finding" None (Some ""))))
    [] (root "X" 1 1) 0 (mkQuestion "q" "r") ≠
    Some (Resolved
            (spec_leafResult [] [] (AgentResponse.mk "finding" None (Some "")))).
Proof. split; vm_compute; intros [=]. Qed.

(** C5, amended.  A branch whose child depth is 0 and whose tool call
    succeeds delivers exactly: the learnings of the call followed by the
    content of the response; the sources of the call followed by the
    "name (path)" strings of the citations of the response; and as
    [compliance_scores] the one-element list of the score when the response
    carries a non-empty score, and no list at all (undefined) otherwise,
    which the aggregation reads as the empty list. *)
Theorem leaf_branch_result
    (recurse : list nat → Node.t → option (outcome ResearchResult))
    (tool : Tool) (path : list nat) (node : Node.t) (i : nat)
    (questionObj : Question) (response : AgentResponse.t) :
  Node.depth node - 1 = 0 →
  execute tool (path ++ [i]) (question questionObj) = Resolved response →
  ∃ result,
    branch recurse tool path node i questionObj = Some (Resolved result) ∧
    learnings result = Node.learnings node ++ [AgentResponse.content response] ∧
    sources result =
      Node.sources node ++
      ((λ s, file_name s +:+ " (" +:+ file_path s +:+ ")") <$>
         default [] (AgentResponse.source response)) ∧
    compliance_scores result =
      match AgentResponse.compliance_score response with
      | Some score => if decide (score = "") then None else Some [score]
      | None => None
      end ∧
    compliance_scores (aggregate [result]) =
      Some match AgentResponse.compliance_score response with
           | Some score => if decide (score = "") then [] else [score]
           | None => []
           end.
Proof.
  intros Hd Hx. eexists. split; [apply (branch_leaf _ _ _ _ _ _ _ Hx); lia|].
  simpl. split_and!.
  - done.
  - by destruct (AgentResponse.source response).
  - destruct (AgentResponse.compliance_score response) as [score|]; [|done].
    simpl. by destruct (decide (score = "")) as [->|Hne];
      [|rewrite bool_decide_true].
  - destruct (AgentResponse.compliance_score response) as [score|]; [|done].
    simpl. by destruct (decide (score = "")) as [->|Hne];
      [|rewrite bool_decide_true].
Qed.

Lemma leaf_branch_result_witness :
  ∃ result,
    branch (λ _ _, None) (sampleTool []) [] (root "X" 1 1) 0
      (mkQuestion "q0" "r0") = Some (Resolved result) ∧
    learnings result = ["answer to q0"] ∧
    sources result = ["report.pdf (/docs/report.pdf)"] ∧
    compliance_scores result = Some ["0.9"].
Proof.
  destruct (leaf_branch_result (λ _ _, None) (sampleTool []) [] (root "X" 1 1)
              0%nat (mkQuestion "q0" "r0")
              (AgentResponse.mk "answer to q0"
                 (Some [mkSource "report.pdf" "/docs/report.pdf"]) (Some "0.9")))
    as (result & Hb & Hl & Hs & Hc & _).
  - reflexivity.
  - vm_compute. reflexivity.
  - exists result. split_and!; [exact Hb | exact Hl | exact Hs | exact Hc].
Defined.

(** ** Progress reporting *)

Lemma branchUpdate_completed node progress questionObj :
  completedQueries (Object_assign progress (branchUpdate node progress questionObj)) =
    completedQueries progress + 1.
Proof. unfold branchUpdate. by case_decide. Qed.

Lemma branchReports_completed node progress resumed k p :
  branchReports node progress resumed !! k = Some p →
  completedQueries p = completedQueries progress + Z.of_nat k + 1.
Proof.
  revert progress k. induction resumed as [|q resumed IH]; intros progress k;
    [done|].
  cbn [branchReports]. destruct k as [|k]; simpl.
  - intros [= <-]. rewrite branchUpdate_completed. lia.
  - intros Hp. rewrite (IH _ _ Hp), branchUpdate_completed. lia.
Qed.

Lemma nodeReports_completed node followUpQuestions resumed k p :
  nodeReports node followUpQuestions resumed !! k = Some p →
  completedQueries p = Z.of_nat k.
Proof.
  unfold nodeReports. destruct k as [|k]; simpl.
  - by intros [= <-].
  - intros Hp. rewrite (branchReports_completed _ _ _ _ _ Hp). simpl. lia.
Qed.

Lemma branchLog_no_recursion recurse tool path node i q progress log :
  ¬ Node.depth node - 1 > 0 →
  branchLog recurse tool path node i q (progress, log) =
    if isResolved (execute tool (path ++ [i]) (question q))
    then Some (Object_assign progress (branchUpdate node progress q),
               log ++ [Object_assign progress (branchUpdate node progress q)])
    else Some (progress, log).
Proof.
  intros Hd. unfold branchLog.
  destruct (execute tool (path ++ [i]) (question q)) as [response|]; [|done].
  by rewrite decide_False.
Qed.

Lemma fanOutLog_no_recursion recurse tool path node i qs progress log :
  ¬ Node.depth node - 1 > 0 →
  ∃ progress',
    fanOutLog (branchLog recurse tool path node) i qs (progress, log) =
      Some (progress',
            log ++ branchReports node progress (resumedInOrder tool path i qs)).
Proof.
  intros Hd. revert i progress log.
  induction qs as [|q qs IH]; intros i progress log.
  - exists progress. simpl. by rewrite app_nil_r.
  - cbn [fanOutLog resumedInOrder].
    rewrite (branchLog_no_recursion _ _ _ _ _ _ _ _ Hd).
    destruct (isResolved (execute tool (path ++ [i]) (question q))).
    + destruct (IH (S i)
                  (Object_assign progress (branchUpdate node progress q))
                  (log ++ [Object_assign progress (branchUpdate node progress q)]))
        as [progress' ->].
      exists progress'. cbn [branchReports]. by rewrite <- app_assoc.
    + apply IH.
Qed.

Lemma progressLog_no_recursion fuel w path node tool qs :
  questionsOf w path node = Some (tool, qs) →
  ¬ Node.depth node - 1 > 0 →
  progressLog_fuel (S fuel) w path node =
    Some (nodeReports node qs (resumedInOrder tool path 0 qs)).
Proof.
  intros Hq Hd. simpl. unfold progressLogBody. rewrite Hq.
  unfold reportProgress. simpl.
  destruct (fanOutLog_no_recursion (progressLog_fuel fuel w) tool path node 0 qs
              (Object_assign (initialProgress node) (questionsUpdate qs))
              [Object_assign (initialProgress node) (questionsUpdate qs)] Hd)
    as [progress' ->].
  done.
Qed.

(** C3, as the specification words it, fails.  With one follow-up question
    per call and depth 2 there is a single order of events: the root reports
    0 and then 1 completed queries, and the recursive call, which has its own
    [progress] object, then reports 0 again. *)
Lemma progress_monotonicity_counterexample :
  ∃ log,
    progressLog (sampleWorld [] []) (root "X" 1 2) = Some log ∧
    completedQueries <$> log = [0; 1; 0; 1] ∧
    ¬ nonDecreasing (completedQueries <$> log).
Proof.
  eexists. split_and!; [vm_compute; reflexivity..|].
  intros Hmono. specialize (Hmono 1%nat 2%nat 1 0). simpl in Hmono.
  assert (1 ≤ 0) by (apply Hmono; [lia | done | done]). lia.
Qed.

(** C3, amended.  Among the snapshots that one call of [deepResearch]
    reports itself, [completedQueries] never decreases, in whatever order
    its branches resume: the k-th snapshot (from 0) carries the value k.
    This covers the whole of a run that makes no recursive call
    (depth ≤ 1).  Each recursive call counts from 0 in a [progress] object
    of its own. *)
Theorem node_progress_is_monotone (node : Node.t)
    (followUpQuestions resumed : list Question) :
  nonDecreasing
    (completedQueries <$> nodeReports node followUpQuestions resumed) ∧
  (∀ k p, nodeReports node followUpQuestions resumed !! k = Some p →
          completedQueries p = Z.of_nat k) ∧
  (∀ w, ¬ Node.depth node - 1 > 0 →
     ∃ log, progressLog w node = Some log ∧
            nonDecreasing (completedQueries <$> log)) ∧
  (∀ child, completedQueries (initialProgress child) = 0).
Proof.
  assert (∀ qs rs,
            nonDecreasing (completedQueries <$> nodeReports node qs rs)) as Hmono.
  { intros qs rs i j a b Hij.
    rewrite !list_lookup_fmap.
    destruct (nodeReports node qs rs !! i) as [pi|] eqn:Hi; [|done].
    destruct (nodeReports node qs rs !! j) as [pj|] eqn:Hj; [|done].
    simpl. intros [= <-] [= <-].
    rewrite (nodeReports_completed _ _ _ _ _ Hi).
    rewrite (nodeReports_completed _ _ _ _ _ Hj). lia. }
  split_and!.
  - apply Hmono.
  - apply nodeReports_completed.
  - intros w Hd. unfold progressLog.
    destruct (questionsOf w [] node) as [[tool qs]|] eqn:Hq.
    + rewrite (progressLog_no_recursion _ _ _ _ _ _ Hq Hd).
      eexists. split; [done|]. apply Hmono.
    + simpl. unfold progressLogBody. rewrite Hq.
      exists []. split; [done|]. by intros i j a b _ ?.
  - done.
Qed.

(** ** Scheduling of the tool calls *)

Lemma activeCount_cons t tasks :
  activeCount (t :: tasks) =
    ((if holdsSlot t then 1 else 0) + activeCount tasks)%nat.
Proof.
  unfold activeCount. rewrite filter_cons.
  destruct (holdsSlot t); [rewrite decide_True by done|rewrite decide_False by done];
    done.
Qed.

Lemma start_length free tasks : length (start free tasks) = length tasks.
Proof.
  revert free. induction tasks as [|t tasks IH]; intros free; [done|].
  destruct free as [|free], t; simpl; by rewrite IH.
Qed.

Lemma start_taskPromise free tasks :
  map (taskPromise promise) (start free tasks) = map (taskPromise promise) tasks.
Proof.
  revert free. induction tasks as [|t tasks IH]; intros free; [done|].
  destruct free as [|free], t; simpl; by rewrite IH.
Qed.

Lemma start_forallb (P : Task Call → bool) free tasks :
  P Executing = true →
  forallb P tasks = true → forallb P (start free tasks) = true.
Proof.
  intros HP. revert free.
  induction tasks as [|t tasks IH]; intros free; [done|].
  simpl. intros [Ht Hrest]%andb_prop.
  destruct free as [|free], t; simpl; rewrite ?Ht, ?HP; simpl; by apply IH.
Qed.

Lemma start_activeCount free tasks :
  (activeCount (start free tasks) ≤ activeCount tasks + free)%nat.
Proof.
  revert free. induction tasks as [|t tasks IH]; intros free.
  { change (0 ≤ 0 + free)%nat. lia. }
  destruct free as [|free].
  - specialize (IH 0%nat).
    destruct t; cbn [start]; rewrite !activeCount_cons;
      destruct (holdsSlot _); lia.
  - pose proof (IH free). pose proof (IH (S free)).
    destruct t; cbn [start]; rewrite !activeCount_cons; simpl;
      try destruct (isPending _); lia.
Qed.

Lemma schedule_activeCount tasks :
  (activeCount tasks ≤ ConcurrencyLimit)%nat →
  (activeCount (schedule tasks) ≤ ConcurrencyLimit)%nat.
Proof.
  intros Hle. unfold schedule.
  pose proof (start_activeCount (ConcurrencyLimit - activeCount tasks) tasks).
  lia.
Qed.

Lemma executing_le_activeCount tasks :
  (length (filter (λ t, isExecuting t = true) tasks) ≤ activeCount tasks)%nat.
Proof.
  induction tasks as [|t tasks IH]; [done|].
  rewrite activeCount_cons, filter_cons.
  destruct t; simpl; try destruct (isPending _); lia.
Qed.

Lemma Promise_all_state_Broken ss : Promise_all_state ss = Broken ↔ Broken ∈ ss.
Proof.
  unfold Promise_all_state. split.
  - destruct (existsb isBroken ss) eqn:E.
    + apply existsb_exists in E as ([| |] & Hin & Hb); try done.
      intros _. by apply list_elem_of_In.
    + by destruct (forallb isFulfilled ss).
  - intros Hin. destruct (existsb isBroken ss) eqn:E; [done|].
    assert (existsb isBroken ss = true) as E'; [|congruence].
    apply existsb_exists. exists Broken. split; [by apply list_elem_of_In|done].
Qed.

Lemma Promise_all_state_Fulfilled ss :
  Promise_all_state ss = Fulfilled ↔ Forall (λ s, s = Fulfilled) ss.
Proof.
  unfold Promise_all_state. split.
  - destruct (existsb isBroken ss); [done|].
    destruct (forallb isFulfilled ss) eqn:E; [|done]. intros _.
    apply Forall_forall. intros s Hs%list_elem_of_In.
    pose proof (proj1 (forallb_forall _ _) E s Hs). by destruct s.
  - intros Hall.
    destruct (existsb isBroken ss) eqn:E.
    + apply existsb_exists in E as (s & Hin%list_elem_of_In & Hb).
      rewrite Forall_forall in Hall. by rewrite (Hall s Hin) in Hb.
    + assert (forallb isFulfilled ss = true) as ->; [|done].
      apply forallb_forall. intros s Hs%list_elem_of_In.
      rewrite Forall_forall in Hall. by rewrite (Hall s Hs).
Qed.

Section AlterTask.
Context (g : Task Call → Task Call).

Lemma alter_taskPromise_settled i tasks :
  (∀ t, taskPromise promise t ≠ Pending →
        taskPromise promise (g t) = taskPromise promise t) →
  Forall (λ s, s ≠ Pending) (map (taskPromise promise) tasks) →
  map (taskPromise promise) (alter g i tasks) = map (taskPromise promise) tasks.
Proof.
  intros Hg. revert i. induction tasks as [|t tasks IH]; intros i; [done|].
  intros [Ht Hrest]%Forall_cons. destruct i as [|i]; simpl.
  - by rewrite Hg.
  - f_equal. by apply IH.
Qed.

Lemma alter_taskPromise_Broken i tasks :
  (∀ t, taskPromise promise t ≠ Pending →
        taskPromise promise (g t) = taskPromise promise t) →
  Broken ∈ map (taskPromise promise) tasks →
  Broken ∈ map (taskPromise promise) (alter g i tasks).
Proof.
  intros Hg. revert i. induction tasks as [|t tasks IH]; intros i; [done|].
  simpl. intros [Ht|Hrest]%elem_of_cons; destruct i as [|i]; simpl.
  - rewrite Hg; [rewrite <- Ht; by left | by rewrite <- Ht].
  - rewrite <- Ht. by left.
  - by right.
  - right. by apply IH.
Qed.

Lemma alter_Promise_all_state i tasks :
  (∀ t, taskPromise promise t ≠ Pending →
        taskPromise promise (g t) = taskPromise promise t) →
  Promise_all_state (map (taskPromise promise) tasks) ≠ Pending →
  Promise_all_state (map (taskPromise promise) (alter g i tasks)) =
    Promise_all_state (map (taskPromise promise) tasks).
Proof.
  intros Hg Hsettled.
  destruct (Promise_all_state (map (taskPromise promise) tasks)) eqn:E; [done| |].
  - apply Promise_all_state_Fulfilled in E.
    rewrite alter_taskPromise_settled; [by apply Promise_all_state_Fulfilled|done|].
    eapply Forall_impl; [done|]. by intros s ->.
  - apply Promise_all_state_Broken, alter_taskPromise_Broken; [done|].
    by apply Promise_all_state_Broken.
Qed.

Lemma alter_activeCount i tasks :
  (∀ t, holdsSlot (g t) = true → holdsSlot t = true) →
  (activeCount (alter g i tasks) ≤ activeCount tasks)%nat.
Proof.
  intros Hg. revert i. induction tasks as [|t tasks IH]; intros i; [done|].
  destruct i as [|i].
  - change (alter g 0%nat (t :: tasks)) with (g t :: tasks).
    rewrite !activeCount_cons.
    specialize (Hg t). destruct (holdsSlot (g t)); [|lia].
    rewrite Hg by done. lia.
  - change (alter g (S i) (t :: tasks)) with (t :: alter g i tasks).
    rewrite !activeCount_cons. specialize (IH i). lia.
Qed.

Lemma alter_forallb (P : Task Call → bool) i tasks :
  (∀ t, P t = true → P (g t) = true) →
  forallb P tasks = true → forallb P (alter g i tasks) = true.
Proof.
  intros Hg. revert i. induction tasks as [|t tasks IH]; intros i; [done|].
  simpl. intros [Ht Hrest]%andb_prop. destruct i as [|i].
  - change (alter g 0%nat (t :: tasks)) with (g t :: tasks). simpl.
    by rewrite Hg, Hrest.
  - change (alter g (S i) (t :: tasks)) with (t :: alter g i tasks).
    cbn [forallb]. by rewrite Ht, IH.
Qed.

End AlterTask.

Lemma stepTask_taskPromise resumed stepBelow t :
  (∀ c, promise c ≠ Pending → promise (stepBelow c) = promise c) →
  taskPromise promise t ≠ Pending →
  taskPromise promise (stepTask resumed stepBelow t) = taskPromise promise t.
Proof. intros Hbelow. destruct t; simpl; try done. apply Hbelow. Qed.

Lemma stepTask_holdsSlot resumed stepBelow t :
  (∀ c, promise c ≠ Pending → promise (stepBelow c) = promise c) →
  holdsSlot (stepTask resumed stepBelow t) = true → holdsSlot t = true.
Proof.
  intros Hbelow. destruct t; simpl; try done.
  destruct (promise c) eqn:E; [done| |]; by rewrite Hbelow, E by (by rewrite E).
Qed.

(** Once the promise of a call has settled, no event changes it. *)
Lemma promise_stable depth p r c :
  promise c ≠ Pending → promise (stepCall depth p r c) = promise c.
Proof.
  revert depth c. induction p as [|i p IH]; intros depth c Hc.
  - destruct c; try done; by destruct r as [[]|[]|].
  - destruct c; try done. cbn [stepCall promise] in *. unfold schedule.
    rewrite start_taskPromise. apply alter_Promise_all_state; [|done].
    intros t. apply stepTask_taskPromise. intros c. apply IH.
Qed.

Lemma forallb_replicate_Queued (P : Task Call → bool) n :
  P Queued = true → forallb P (replicate n Queued) = true.
Proof. intros HP. induction n as [|n IH]; simpl; [done|]. by rewrite HP, IH. Qed.

Lemma activeCount_replicate_Queued n : activeCount (replicate n Queued) = 0%nat.
Proof.
  induction n as [|n IH]; [done|]. simpl replicate.
  by rewrite activeCount_cons, IH.
Qed.

(** No event takes a limiter beyond its capacity. *)
Lemma stepCall_withinLimit depth p r c :
  withinLimit c = true → withinLimit (stepCall depth p r c) = true.
Proof.
  revert depth c. induction p as [|i p IH]; intros depth c Hc.
  - destruct c; try done; destruct r as [[]|[n|]|]; try done.
    cbn [stepCall withinLimit]. apply andb_true_intro. split.
    + apply bool_decide_eq_true. apply schedule_activeCount.
      rewrite activeCount_replicate_Queued. lia.
    + apply start_forallb; [done|]. by apply forallb_replicate_Queued.
  - destruct c; try done. cbn [stepCall withinLimit] in *.
    apply andb_prop in Hc as [Hactive%bool_decide_eq_true Hbelow].
    apply andb_true_intro. split.
    + apply bool_decide_eq_true, schedule_activeCount.
      etrans; [|exact Hactive]. apply alter_activeCount.
      intros t. apply stepTask_holdsSlot. intros c. apply promise_stable.
    + apply start_forallb; [done|]. apply alter_forallb; [|done].
      intros [| |c|]; simpl; try done.
      * intros _. unfold toolReturn.
        destruct p; [|done]. destruct r as [|n|[]]; try done.
        unfold resume. simpl. by case_decide.
      * apply IH.
Qed.

Lemma runEvents_from_withinLimit depth events c :
  withinLimit c = true →
  withinLimit (foldl (λ c e, stepCall depth e.1 e.2 c) c events) = true.
Proof.
  revert c. induction events as [|e events IH]; intros c Hc; [done|].
  simpl. by apply IH, stepCall_withinLimit.
Qed.

Lemma callState_withinLimit c p c' :
  withinLimit c = true → callState c p = Some c' → withinLimit c' = true.
Proof.
  revert c. induction p as [|i p IH]; intros c Hc; simpl.
  - by intros [= <-].
  - destruct c; try done. destruct (tasks !! i) as [[| |c''|]|] eqn:Hi; try done.
    apply IH. simpl in Hc. apply andb_prop in Hc as [_ Hbelow].
    apply (proj1 (forallb_forall _ _) Hbelow (Descending c'')).
    by eapply list_elem_of_In, list_elem_of_lookup_2.
Qed.

Lemma ownToolCalls_withinLimit c :
  withinLimit c = true → (ownToolCalls c ≤ ConcurrencyLimit)%nat.
Proof.
  destruct c; simpl; try lia.
  intros [Hactive%bool_decide_eq_true _]%andb_prop.
  etrans; [apply executing_le_activeCount | done].
Qed.

Lemma stepCall_FanOut depth p r tasks :
  ∃ tasks', stepCall depth p r (FanOut tasks) = FanOut tasks' ∧
            length tasks' = length tasks.
Proof.
  destruct p as [|i p].
  - exists tasks. by destruct r as [[]|[]|].
  - eexists. split; [done|]. unfold schedule.
    by rewrite start_length, length_alter.
Qed.

Lemma runEvents_from_FanOut depth events tasks :
  ∃ tasks',
    foldl (λ c e, stepCall depth e.1 e.2 c) (FanOut tasks) events = FanOut tasks' ∧
    length tasks' = length tasks.
Proof.
  revert tasks. induction events as [|e events IH]; intros tasks.
  - by exists tasks.
  - simpl. destruct (stepCall_FanOut depth e.1 e.2 tasks) as (tasks1 & -> & Hlen).
    destruct (IH tasks1) as (tasks2 & -> & Hlen2).
    exists tasks2. split; [done|]. by rewrite Hlen2.
Qed.

(** C8.  No limiter is shared: every call that has fanned out schedules its
    own tasks with capacity [ConcurrencyLimit] = 2.  Whatever the order in
    which the oracle and the tools return, at every call of the tree at most
    2 tool calls of its own fan-out are in flight; so it is for a call with
    5 follow-up questions.  The bound holds for each call separately, not
    for the run: with depth 2, two sibling calls can have 2 tool calls in
    flight each, 4 in the whole tree. *)
Theorem limiter_caps_each_fan_out :
  ConcurrencyLimit = 2%nat ∧
  (∀ depth events p c,
     callState (runEvents depth events) p = Some c →
     (ownToolCalls c ≤ ConcurrencyLimit)%nat) ∧
  (∀ depth events, ∃ tasks,
     runEvents depth
       (([], SelectionReturns true) :: ([], QuestionsReturn (Some 5%nat)) :: events) =
       FanOut tasks ∧
     length tasks = 5%nat ∧
     (ownToolCalls (FanOut tasks) ≤ 2)%nat) ∧
  (∃ events,
     callState (runEvents 2 events) [0%nat] = Some (FanOut [Executing; Executing]) ∧
     callState (runEvents 2 events) [1%nat] = Some (FanOut [Executing; Executing]) ∧
     allToolCalls (runEvents 2 events) = 4%nat ∧
     (allToolCalls (runEvents 2 events) > ConcurrencyLimit)%nat).
Proof.
  assert (∀ depth events, withinLimit (runEvents depth events) = true) as Hinv.
  { intros depth events. by apply runEvents_from_withinLimit. }
  split_and!.
  - done.
  - intros depth events p c Hc.
    by eapply ownToolCalls_withinLimit, callState_withinLimit.
  - intros depth events.
    pose proof (Hinv depth
      (([], SelectionReturns true) :: ([], QuestionsReturn (Some 5%nat)) :: events))
      as Hin.
    unfold runEvents in *. cbn [foldl stepCall fst snd] in *.
    destruct (runEvents_from_FanOut depth events
                (schedule (replicate 5 Queued))) as (tasks & Hrun & Hlen).
    rewrite Hrun in Hin |- *. exists tasks. split_and!; [done..|].
    by apply (ownToolCalls_withinLimit (FanOut tasks)).
  - exists [ ([], SelectionReturns true); ([], QuestionsReturn (Some 2%nat));
             ([0%nat], ToolReturns true); ([1%nat], ToolReturns true);
             ([0%nat], SelectionReturns true);
             ([0%nat], QuestionsReturn (Some 2%nat));
             ([1%nat], SelectionReturns true);
             ([1%nat], QuestionsReturn (Some 2%nat)) ].
    split_and!; vm_compute; (reflexivity || lia).
Qed.

(** * Further properties of the engine *)

(** ** Configuration errors *)

Lemma no_questions_propagates w path node p failing fuel :
  callAt w path node p = Some failing →
  questionsOf w (path ++ p) failing = None →
  (levels node ≤ fuel)%nat →
  deepResearch_fuel fuel w path node = Some Rejected.
Proof.
  revert path node fuel.
  induction p as [|i p IH]; intros path node fuel; simpl.
  - intros [= <-]. rewrite app_nil_r. intros Hf Hfuel.
    destruct fuel as [|fuel]; [unfold levels in Hfuel; lia|]. simpl.
    by apply deepResearchBody_no_questions.
  - destruct (childCall w path node i) as [child|] eqn:Hc; [|done].
    intros Hn Hf Hfuel.
    destruct fuel as [|fuel]; [unfold levels in Hfuel; lia|].
    pose proof Hc as (tool & qs & q & response & Hq & Hi & Hx & Hd & ->)%childCall_Some.
    eapply deepResearch_fuel_branch_rejected; [done..|].
    rewrite (branch_descends _ _ _ _ _ _ _ Hx Hd).
    apply (IH _ _ _ Hn).
    + by rewrite <- app_assoc.
    + pose proof (levels_childNode node q response Hd). lia.
Qed.

(** When the oracle names a tool that the catalog object has neither as a
    property of its own nor as an inherited one, so that the lookup gives
    [undefined], at any call reached by the run, the top-level call rejects;
    the call that got the unknown name asks for no follow-up question and
    starts no branch. *)
Theorem unknown_tool_rejects_run (w : World) (rootNode node : Node.t)
    (p : list nat) (toolName reason : string) :
  callAt w [] rootNode p = Some node →
  classify w p (Node.query node) = Resolved (toolName, reason) →
  lookupTool (researchTools w) toolName = None →
  deepResearch w rootNode = Some Rejected ∧
  questionsOf w p node = None ∧
  ∀ i, childCall w p node i = None.
Proof.
  intros Hcall Hclass Hlookup.
  assert (questionsOf w p node = None) as Hq.
  { unfold questionsOf, determineResearchTool. by rewrite Hclass, Hlookup. }
  split_and!; [|done|].
  - eapply no_questions_propagates; [done..|]. apply deepResearch_enough_fuel.
  - intros i. unfold childCall. by rewrite Hq.
Qed.

Lemma unknown_tool_rejects_run_witness :
  deepResearch
    {| researchTools := [("marketIntelligence", sampleTool [])];
       classify := λ path query,
         if decide (path = [0%nat]) then Resolved ("webSearch", "no such tool")
         else Resolved ("marketIntelligence", "best match");
       expand := λ path query toolDescription previousLearnings,
         Resolved sampleQuestions |}
    (root "X" 2 2) = Some Rejected.
Proof.
  refine (proj1 (unknown_tool_rejects_run _ (root "X" 2 2)
            (childNode (root "X" 2 2) (mkQuestion "q0" "r0")
               (AgentResponse.mk "answer to q0"
                  (Some [mkSource "report.pdf" "/docs/report.pdf"]) (Some "0.9")))
            [0%nat] "webSearch" "no such tool" _ _ _));
    vm_compute; reflexivity.
Defined.

(** ** The follow-up questions of a call *)

Lemma slice0_prefix {A : Type} (n : Z) (arr : list A) : slice0 n arr `prefix_of` arr.
Proof. unfold slice0. case_decide; apply prefix_take. Qed.

Lemma slice0_length {A : Type} (n : Z) (arr : list A) :
  length (slice0 n arr) =
    if decide (n < 0) then (length arr - Z.to_nat (- n))%nat
    else Nat.min (Z.to_nat n) (length arr).
Proof. unfold slice0. case_decide; rewrite length_take; lia. Qed.

(** The follow-up questions of a call are the first questions of the list
    that the oracle returned, in the oracle's order.  With a breadth ≥ 0
    there are min(breadth, number returned) of them, so never more than
    [breadth]; a negative breadth -k does not give an empty list but drops
    the last k questions of the oracle. *)
Theorem followUpQuestions_are_a_prefix (w : World) (path : list nat)
    (node : Node.t) (tool : Tool) (followUpQuestions : list Question) :
  questionsOf w path node = Some (tool, followUpQuestions) →
  ∃ questions,
    expand w path (Node.query node) (description tool) (Node.learnings node) =
      Resolved questions ∧
    followUpQuestions `prefix_of` questions ∧
    (0 ≤ Node.breadth node →
       length followUpQuestions =
         Nat.min (Z.to_nat (Node.breadth node)) (length questions) ∧
       Z.of_nat (length followUpQuestions) ≤ Node.breadth node) ∧
    (Node.breadth node < 0 →
       length followUpQuestions =
         (length questions - Z.to_nat (- Node.breadth node))%nat).
Proof.
  unfold questionsOf, generateFollowUpQuestions.
  destruct (determineResearchTool w path (Node.query node))
    as [[[tool'|] reason]|]; try done.
  destruct (expand w path (Node.query node) (description tool')
              (Node.learnings node)) as [questions|] eqn:He; [|done].
  intros [= -> <-]. exists questions. split_and!; [done|apply slice0_prefix|..].
  - intros Hb. rewrite slice0_length, decide_False by lia. lia.
  - intros Hb. by rewrite slice0_length, decide_True by lia.
Qed.

Lemma followUpQuestions_are_a_prefix_witness :
  ∃ questions,
    expand (sampleWorld [] []) [] "X" "market intelligence" [] =
      Resolved questions ∧
    [mkQuestion "q0" "r0"; mkQuestion "q1" "r1"] `prefix_of` questions.
Proof.
  destruct (followUpQuestions_are_a_prefix (sampleWorld [] []) [] (root "X" 2 1)
              (sampleTool []) [mkQuestion "q0" "r0"; mkQuestion "q1" "r1"])
    as (questions & He & Hp & _).
  - vm_compute. reflexivity.
  - by exists questions.
Defined.

(** With breadth 0 a call whose oracle calls succeed has no follow-up
    question: it calls no tool and resolves to the empty result, whatever
    its depth and whatever learnings and sources it was given. *)
Theorem breadth_zero_empty_result (fuel : nat) (w : World) (path : list nat)
    (node : Node.t) (tool : Tool) (followUpQuestions : list Question) :
  questionsOf w path node = Some (tool, followUpQuestions) →
  Node.breadth node = 0 →
  followUpQuestions = [] ∧
  deepResearch_fuel (S fuel) w path node =
    Some (Resolved {| learnings := []; sources := []; compliance_scores := Some [] |}).
Proof.
  intros Hq Hb.
  destruct (followUpQuestions_are_a_prefix _ _ _ _ _ Hq) as (qs & _ & _ & Hlen & _).
  destruct Hlen as [Hlen _]; [lia|].
  rewrite Hb in Hlen. simpl in Hlen.
  destruct followUpQuestions as [|q ?]; [|done]. split; [done|].
  simpl. by rewrite (deepResearchBody_questions _ _ _ _ _ _ Hq).
Qed.

Lemma breadth_zero_empty_result_witness :
  deepResearch (sampleWorld [] []) (root "X" 0 3) =
    Some (Resolved {| learnings := []; sources := []; compliance_scores := Some [] |}).
Proof.
  refine (proj2 (breadth_zero_empty_result 3 (sampleWorld [] []) []
                   (root "X" 0 3) (sampleTool []) [] _ _)).
  - vm_compute. reflexivity.
  - reflexivity.
Defined.

(** ** Where the findings of a result come from *)

Lemma questionsOf_catalog w path node tool qs :
  questionsOf w path node = Some (tool, qs) →
  ∃ name, lookupTool (researchTools w) name = Some tool.
Proof.
  unfold questionsOf, determineResearchTool.
  destruct (classify w path (Node.query node)) as [[name reason]|]; [|done].
  destruct (lookupTool (researchTools w) name) as [tool'|] eqn:Hl; [|done].
  destruct (generateFollowUpQuestions _ _ _ _ _ _); [|done].
  intros [= -> _]. by exists name.
Qed.

Lemma toolAnswered_above w path i response :
  toolAnswered w (path ++ [i]) response → toolAnswered w path response.
Proof.
  intros (name & tool & p & q & Hl & Hp & Hx). exists name, tool, p, q.
  split_and!; [done| |done]. etrans; [|done]. by apply prefix_app_r.
Qed.

Lemma grounded_above w path i givenLearnings givenSources response r :
  toolAnswered w (path ++ [i]) response →
  grounded w (path ++ [i])
    (givenLearnings ++ [AgentResponse.content response])
    (givenSources ++ Processed.sources (processAgentResponse response)) r →
  grounded w path givenLearnings givenSources r.
Proof.
  intros Hans (Hl & Hs & Hc). split_and!.
  - intros x [[Hx|Hx%list_elem_of_singleton]%elem_of_app|(resp & Hr & ->)]%Hl.
    + by left.
    + right. exists response. split; [by eapply toolAnswered_above|done].
    + right. exists resp. split; [by eapply toolAnswered_above|done].
  - intros x [[Hx|Hx]%elem_of_app|(resp & ss & s & Hr & ? & ? & ->)]%Hs.
    + by left.
    + right. simpl in Hx.
      destruct (AgentResponse.source response) as [ss|] eqn:Hss;
        [|by apply elem_of_nil in Hx].
      apply list_elem_of_fmap in Hx as (s & -> & Hin).
      exists response, ss, s. split_and!; [by eapply toolAnswered_above|done..].
    + right. exists resp, ss, s.
      split_and!; [by eapply toolAnswered_above|done..].
  - intros x [Hne (resp & Hr & Hsc)]%Hc. split; [done|].
    exists resp. split; [by eapply toolAnswered_above|done].
Qed.

Lemma branch_grounded recurse w tool name path node i q r :
  lookupTool (researchTools w) name = Some tool →
  (∀ child r',
     recurse (path ++ [i]) child = Some (Resolved r') →
     grounded w (path ++ [i]) (Node.learnings child) (Node.sources child) r') →
  branch recurse tool path node i q = Some (Resolved r) →
  grounded w path (Node.learnings node) (Node.sources node) r.
Proof.
  intros Hl Hrec. unfold branch.
  destruct (execute tool (path ++ [i]) (question q)) as [response|] eqn:Hx.
  - assert (toolAnswered w (path ++ [i]) response) as Hans.
    { by exists name, tool, (path ++ [i]), (question q). }
    case_decide.
    + intros Hr%Hrec. by eapply grounded_above.
    + intros [= <-]. eapply grounded_above; [done|].
      split_and!; simpl.
      * intros x Hx'. by left.
      * intros x Hx'. by left.
      * destruct (AgentResponse.compliance_score response) as [score|] eqn:Hsc;
          simpl; [|by intros x ?%elem_of_nil].
        case_bool_decide as Hne; simpl; [|by intros x ?%elem_of_nil].
        intros x ->%list_elem_of_singleton. split; [done|]. by exists response.
  - intros [= <-]. split_and!; simpl; by intros x ?%elem_of_nil.
Qed.

Lemma aggregate_grounded w path givenLearnings givenSources results :
  (∀ r, r ∈ results → grounded w path givenLearnings givenSources r) →
  grounded w path givenLearnings givenSources (aggregate results).
Proof.
  intros Hall. split_and!; simpl.
  - intros x (r & Hx & Hr)%unique_elem%list_elem_of_bind.
    by apply (Hall r Hr).
  - intros x (r & Hx & Hr)%unique_elem%list_elem_of_bind.
    by apply (Hall r Hr).
  - intros x (r & Hx & Hr)%list_elem_of_bind. by apply (Hall r Hr).
Qed.

Lemma deepResearch_fuel_Resolved fuel w path node result :
  deepResearch_fuel (S fuel) w path node = Some (Resolved result) →
  ∃ tool qs results,
    questionsOf w path node = Some (tool, qs) ∧
    result = aggregate results ∧
    length results = length qs ∧
    ∀ j r, results !! j = Some r →
      ∃ q, qs !! j = Some q ∧
           branch (deepResearch_fuel fuel w) tool path node j q =
             Some (Resolved r).
Proof.
  simpl. destruct (questionsOf w path node) as [[tool qs]|] eqn:Hq.
  - rewrite (deepResearchBody_questions _ _ _ _ _ _ Hq).
    destruct (fanOut _ 0 qs) as [promises|] eqn:Hfan; [|done].
    destruct (Promise_all promises) as [results|] eqn:Hall; [|done].
    intros [= <-]. apply Promise_all_Resolved in Hall as ->.
    apply fanOut_Some in Hfan as [Hlen Hbr]. rewrite length_fmap in Hlen.
    exists tool, qs, results. split_and!; [done..|].
    intros j r Hj.
    destruct (lookup_lt_is_Some_2 qs j) as [q Hqj].
    { rewrite <- Hlen. by eapply lookup_lt_Some. }
    exists q. split; [done|].
    destruct (Hbr _ _ Hqj) as (p & Hp & Hlp). simpl in Hp.
    rewrite list_lookup_fmap, Hj in Hlp. simpl in Hlp. by simplify_eq.
  - by rewrite (deepResearchBody_no_questions _ _ _ _ Hq).
Qed.

Lemma deepResearch_fuel_grounded fuel w path node result :
  deepResearch_fuel fuel w path node = Some (Resolved result) →
  grounded w path (Node.learnings node) (Node.sources node) result.
Proof.
  revert path node result.
  induction fuel as [|fuel IH]; intros path node result; [done|].
  intros (tool & qs & results & Hq & -> & Hlen & Hbr)%deepResearch_fuel_Resolved.
  destruct (questionsOf_catalog _ _ _ _ _ Hq) as [name Hname].
  apply aggregate_grounded. intros r [j Hj]%list_elem_of_lookup_1.
  destruct (Hbr _ _ Hj) as (q & Hqj & Hb).
  eapply branch_grounded; [done| |done].
  intros child r' Hr'. by apply IH.
Qed.

Lemma returnedInRun_here w path node tool qs i q response :
  questionsOf w path node = Some (tool, qs) →
  qs !! i = Some q →
  execute tool (path ++ [i]) (question q) = Resolved response →
  returnedInRun w path node response.
Proof.
  intros Hq Hi Hx. exists [], node, tool, qs, i, q.
  rewrite app_nil_r. by split_and!.
Qed.

Lemma returnedInRun_above w path node i child response :
  childCall w path node i = Some child →
  returnedInRun w (path ++ [i]) child response →
  returnedInRun w path node response.
Proof.
  intros Hc (p & n & tool & qs & j & q & Hn & Hq & Hj & Hx).
  exists (i :: p), n, tool, qs, j, q.
  replace (path ++ i :: p) with ((path ++ [i]) ++ p)
    by (by rewrite <- app_assoc).
  split_and!; [|done..]. simpl. by rewrite Hc.
Qed.

Lemma groundedBy_child (below here : AgentResponse.t → Prop) node q response r :
  here response →
  (∀ resp, below resp → here resp) →
  groundedBy below (Node.learnings (childNode node q response))
    (Node.sources (childNode node q response)) r →
  groundedBy here (Node.learnings node) (Node.sources node) r.
Proof.
  intros Hhere Habove [Hl Hs]. split.
  - intros x [[Hx|Hx%list_elem_of_singleton]%elem_of_app|(resp & Hr & ->)]%Hl.
    + by left.
    + right. by exists response.
    + right. exists resp. split; [by apply Habove|done].
  - intros x [[Hx|Hx]%elem_of_app|(resp & ss & s & Hr & ? & ? & ->)]%Hs.
    + by left.
    + right. simpl in Hx.
      destruct (AgentResponse.source response) as [ss|] eqn:Hss;
        [|by apply elem_of_nil in Hx].
      apply list_elem_of_fmap in Hx as (s & -> & Hin).
      by exists response, ss, s.
    + right. exists resp, ss, s. split_and!; [by apply Habove|done..].
Qed.

Lemma deepResearch_fuel_groundedInRun fuel w path node result :
  deepResearch_fuel fuel w path node = Some (Resolved result) →
  groundedInRun w path node result.
Proof.
  revert path node result.
  induction fuel as [|fuel IH]; intros path node result; [done|].
  intros (tool & qs & results & Hq & -> & Hlen & Hbr)%deepResearch_fuel_Resolved.
  assert (∀ r, r ∈ results → groundedInRun w path node r) as Hall.
  { intros r [j Hj]%list_elem_of_lookup_1.
    destruct (Hbr _ _ Hj) as (q & Hqj & Hb).
    destruct (execute tool (path ++ [j]) (question q)) as [response|] eqn:Hx.
    - pose proof (returnedInRun_here _ _ _ _ _ _ _ _ Hq Hqj Hx) as Hhere.
      destruct (decide (Node.depth node - 1 > 0)) as [Hd|Hd].
      + rewrite (branch_descends _ _ _ _ _ _ _ Hx Hd) in Hb.
        apply (groundedBy_child
                 (returnedInRun w (path ++ [j]) (childNode node q response))
                 _ _ q response); [done| |by apply IH].
        intros resp. apply returnedInRun_above.
        unfold childCall. rewrite Hq, Hqj, Hx. by rewrite decide_True.
      + rewrite (branch_leaf _ _ _ _ _ _ _ Hx Hd) in Hb. injection Hb as <-.
        apply (groundedBy_child (λ _, False) _ _ q response); [done|done|].
        split; simpl; intros x Hx'; by left.
    - rewrite (branch_caught _ _ _ _ _ _ Hx) in Hb. injection Hb as <-.
      split; simpl; by intros x ?%elem_of_nil. }
  split; simpl.
  - intros x (r & Hx & Hr)%unique_elem%list_elem_of_bind.
    by apply (Hall r Hr).
  - intros x (r & Hx & Hr)%unique_elem%list_elem_of_bind.
    by apply (Hall r Hr).
Qed.

(** Every learning and every source of the result of a run was produced by
    a tool call that the run made: the run reached a call whose oracle calls
    succeeded, that call ran the selected tool for one of its follow-up
    questions, and the tool returned a response of which the learning is the
    content, or the source the "name (path)" string of a citation (the
    top-level call is given no learnings and no sources). *)
Theorem findings_come_from_tools (w : World) (query : string)
    (breadth depth : Z) (result : ResearchResult) :
  deepResearch w (root query breadth depth) = Some (Resolved result) →
  (∀ x, x ∈ learnings result →
     ∃ p n tool followUpQuestions i questionObj response,
       callAt w [] (root query breadth depth) p = Some n ∧
       questionsOf w p n = Some (tool, followUpQuestions) ∧
       followUpQuestions !! i = Some questionObj ∧
       execute tool (p ++ [i]) (question questionObj) = Resolved response ∧
       x = AgentResponse.content response) ∧
  (∀ x, x ∈ sources result →
     ∃ p n tool followUpQuestions i questionObj response ss s,
       callAt w [] (root query breadth depth) p = Some n ∧
       questionsOf w p n = Some (tool, followUpQuestions) ∧
       followUpQuestions !! i = Some questionObj ∧
       execute tool (p ++ [i]) (question questionObj) = Resolved response ∧
       AgentResponse.source response = Some ss ∧ s ∈ ss ∧
       x = file_name s +:+ " (" +:+ file_path s +:+ ")").
Proof.
  intros [Hl Hs]%deepResearch_fuel_groundedInRun. split.
  - intros x [Hx|(response & Hr & ->)]%Hl; [by apply elem_of_nil in Hx|].
    destruct Hr as (p & n & tool & qs & i & q & Hn & Hq & Hi & Hx).
    by exists p, n, tool, qs, i, q, response.
  - intros x [Hx|(response & ss & s & Hr & Hss & Hin & ->)]%Hs;
      [by apply elem_of_nil in Hx|].
    destruct Hr as (p & n & tool & qs & i & q & Hn & Hq & Hi & Hx).
    by exists p, n, tool, qs, i, q, response, ss, s.
Qed.

Lemma findings_come_from_tools_witness :
  ∃ p n tool followUpQuestions i questionObj response,
    callAt (sampleWorld [] []) [] (root "X" 2 1) p = Some n ∧
    questionsOf (sampleWorld [] []) p n = Some (tool, followUpQuestions) ∧
    followUpQuestions !! i = Some questionObj ∧
    execute tool (p ++ [i]) (question questionObj) = Resolved response ∧
    "answer to q1" = AgentResponse.content response.
Proof.
  refine (proj1 (findings_come_from_tools (sampleWorld [] []) "X" 2 1
                   {| learnings := ["answer to q0"; "answer to q1"];
                      sources := ["report.pdf (/docs/report.pdf)"];
                      compliance_scores := Some ["0.9"; "0.9"] |} _)
            "answer to q1" _).
  - vm_compute. reflexivity.
  - apply elem_of_cons. right. apply elem_of_cons. by left.
Defined.

(** What a call of [deepResearch] resolves to always has a
    [compliance_scores] array, although the field is optional; every score
    in it is a non-empty string that a tool response carried as its
    compliance score; and its learnings and sources have no duplicates. *)
Theorem resolved_result_is_well_formed (fuel : nat) (w : World)
    (path : list nat) (node : Node.t) (result : ResearchResult) :
  deepResearch_fuel fuel w path node = Some (Resolved result) →
  NoDup (learnings result) ∧
  NoDup (sources result) ∧
  ∃ scores,
    compliance_scores result = Some scores ∧
    ∀ x, x ∈ scores →
      x ≠ "" ∧
      ∃ response, toolAnswered w path response ∧
                  AgentResponse.compliance_score response = Some x.
Proof.
  intros Hrun. pose proof (deepResearch_fuel_grounded _ _ _ _ _ Hrun) as (_ & _ & Hc).
  destruct fuel as [|fuel]; [done|].
  apply deepResearch_fuel_Resolved in Hrun as (tool & qs & results & _ & -> & _).
  split_and!; [apply unique_NoDup..|].
  eexists. split; [done|]. exact Hc.
Qed.

Lemma resolved_result_is_well_formed_witness :
  ∃ scores,
    Some ["0.9"; "0.9"] = Some scores ∧
    ∀ x, x ∈ scores → x ≠ "".
Proof.
  destruct (resolved_result_is_well_formed 2 (sampleWorld [] []) [] (root "X" 2 1)
              {| learnings := ["answer to q0"; "answer to q1"];
                 sources := ["report.pdf (/docs/report.pdf)"];
                 compliance_scores := Some ["0.9"; "0.9"] |})
    as (_ & _ & scores & Hs & Hall).
  - vm_compute. reflexivity.
  - exists scores. split; [exact Hs|]. intros x Hx. exact (proj1 (Hall x Hx)).
Defined.

(** ** Calls that do not recurse *)

Lemma questionsOf_depth w path q b d1 d2 ls ss :
  questionsOf w path (Node.mk q b d1 ls ss) =
    questionsOf w path (Node.mk q b d2 ls ss).
Proof. done. Qed.

(** The depth matters only through the test [depth - 1 > 0]: with any two
    depths that are at most 1, in particular 0 and 1, a call settles in the
    same way.  A depth of 0 still runs one level of tool calls. *)
Theorem depth_at_most_one_same_result (w : World) (query : string) (breadth : Z)
    (depth1 depth2 : Z) (learnings0 sources0 : list string) :
  depth1 ≤ 1 → depth2 ≤ 1 →
  deepResearch w (Node.mk query breadth depth1 learnings0 sources0) =
    deepResearch w (Node.mk query breadth depth2 learnings0 sources0).
Proof.
  intros H1 H2. unfold deepResearch. cbn [deepResearch_fuel Node.depth].
  pose proof (questionsOf_depth w [] query breadth depth1 depth2
                learnings0 sources0) as Hsame.
  destruct (questionsOf w [] (Node.mk query breadth depth2 learnings0 sources0))
    as [[tool qs]|] eqn:Hq.
  - rewrite (deepResearchBody_questions _ _ _ _ _ _ Hq).
    rewrite (deepResearchBody_questions _ _ _ _ _ _ Hsame).
    rewrite (fanOut_ext _
      (branch (deepResearch_fuel (Z.to_nat depth2) w) tool []
         (Node.mk query breadth depth2 learnings0 sources0))); [done|].
    intros j q _. unfold branch. simpl.
    destruct (execute tool [j] (question q)); [|done].
    by rewrite !decide_False by lia.
  - by rewrite !deepResearchBody_no_questions.
Qed.

Lemma depth_at_most_one_same_result_witness :
  deepResearch (sampleWorld [] []) (Node.mk "X" 2 0 [] []) =
    deepResearch (sampleWorld [] []) (Node.mk "X" 2 1 [] []).
Proof.
  apply (depth_at_most_one_same_result (sampleWorld [] []) "X" 2 0 1 [] []); lia.
Defined.

(** A call that does not recurse (depth ≤ 1) and whose oracle calls
    succeed never rejects, however many of its tool calls fail; and as soon
    as one tool call succeeds, its result holds that response's content and
    everything the call was given: its learnings and its sources. *)
Theorem leaf_level_call_resolves (fuel : nat) (w : World) (path : list nat)
    (node : Node.t) (tool : Tool) (followUpQuestions : list Question) :
  questionsOf w path node = Some (tool, followUpQuestions) →
  Node.depth node ≤ 1 →
  ∃ result,
    deepResearch_fuel (S fuel) w path node = Some (Resolved result) ∧
    ∀ i questionObj response,
      followUpQuestions !! i = Some questionObj →
      execute tool (path ++ [i]) (question questionObj) = Resolved response →
      AgentResponse.content response ∈ learnings result ∧
      Node.learnings node ⊆ learnings result ∧
      Node.sources node ⊆ sources result.
Proof.
  intros Hq Hd.
  destruct (deepResearch_fuel_all_resolved fuel w path node tool
              followUpQuestions Hq) as (results & Hrun & Hlen & Hres).
  { intros j q Hj.
    destruct (execute tool (path ++ [j]) (question q)) as [response|] eqn:Hx.
    - eexists. apply (branch_leaf _ _ _ _ _ _ _ Hx). lia.
    - eexists. by apply branch_caught. }
  exists (aggregate results). split; [done|].
  intros i q response Hi Hx.
  destruct (Hres _ _ Hi) as (r & Hr & Hb).
  rewrite (branch_leaf _ _ _ _ _ _ _ Hx) in Hb by lia.
  injection Hb as <-.
  destruct (aggregate_contains results _ (list_elem_of_lookup_2 _ _ _ Hr))
    as (Hl & Hs & _).
  simpl in Hl, Hs. split_and!.
  - apply Hl, elem_of_app. right. by apply list_elem_of_singleton.
  - intros x Hx'. apply Hl, elem_of_app. by left.
  - intros x Hx'. apply Hs, elem_of_app. by left.
Qed.

Lemma leaf_level_call_resolves_witness :
  ∃ result,
    deepResearch_fuel 1 (sampleWorld [] [[0]; [2]]%nat) []
      {| Node.query := "X"; Node.breadth := 3; Node.depth := 1;
         Node.learnings := ["known"]; Node.sources := ["file (path)"] |} =
      Some (Resolved result) ∧
    "answer to q1" ∈ learnings result ∧ ["known"] ⊆ learnings result.
Proof.
  destruct (leaf_level_call_resolves 0 (sampleWorld [] [[0]; [2]]%nat) []
              {| Node.query := "X"; Node.breadth := 3; Node.depth := 1;
                 Node.learnings := ["known"]; Node.sources := ["file (path)"] |}
              (sampleTool [[0]; [2]]%nat) sampleQuestions)
    as (result & Hrun & Hall).
  - vm_compute. reflexivity.
  - simpl. lia.
  - exists result. split; [exact Hrun|].
    destruct (Hall 1%nat (mkQuestion "q1" "r1")
                (AgentResponse.mk "answer to q1"
                   (Some [mkSource "report.pdf" "/docs/report.pdf"]) (Some "0.9")))
      as (H1 & H2 & _).
    + reflexivity.
    + vm_compute. reflexivity.
    + split; [exact H1 | exact H2].
Defined.

(** ** What is handed down the tree *)

(** The learnings and sources given to a recursive call extend those of
    the call above it: the call reached after n levels has the learnings of
    the top-level call as a prefix, followed by exactly n more, one tool
    response per level; its sources extend those of the top-level call. *)
Theorem findings_accumulate_down_the_tree (w : World) (path : list nat)
    (node n : Node.t) (p : list nat) :
  callAt w path node p = Some n →
  Node.learnings node `prefix_of` Node.learnings n ∧
  length (Node.learnings n) = (length (Node.learnings node) + length p)%nat ∧
  Node.sources node `prefix_of` Node.sources n.
Proof.
  revert path node. induction p as [|i p IH]; intros path node; simpl.
  - intros [= <-]. split_and!; [done|lia|done].
  - destruct (childCall w path node i) as [child|] eqn:Hc; [|done].
    apply childCall_Some in Hc as (tool & qs & q & response & _ & _ & _ & _ & ->).
    intros (Hl & Hlen & Hs)%IH. simpl in *. split_and!.
    + etrans; [|exact Hl]. by apply prefix_app_r.
    + rewrite Hlen, length_app. simpl. lia.
    + etrans; [|exact Hs]. by apply prefix_app_r.
Qed.

Lemma findings_accumulate_down_the_tree_witness :
  ∃ n, callAt (sampleWorld [] []) [] (root "X" 5 3) [0; 1]%nat = Some n ∧
       length (Node.learnings n) = 2%nat.
Proof.
  eexists. split; [vm_compute; reflexivity|].
  refine (proj1 (proj2 (findings_accumulate_down_the_tree (sampleWorld [] []) []
                          (root "X" 5 3) _ [0; 1]%nat _))).
  vm_compute. reflexivity.
Defined.

(** ** The snapshots of one call *)

Lemma branchReports_fields node progress resumed k p :
  branchReports node progress resumed !! k = Some p →
  totalQueries p = totalQueries progress ∧
  totalDepth p = totalDepth progress ∧
  totalBreadth p = totalBreadth progress ∧
  currentQuery p = question <$> resumed !! k ∧
  currentDepth p = Z.max 0 (Node.depth node - 1).
Proof.
  revert progress k. induction resumed as [|q resumed IH]; intros progress k;
    [done|].
  cbn [branchReports]. destruct k as [|k]; simpl.
  - intros [= <-]. unfold branchUpdate.
    case_decide; simpl; split_and!; try done; lia.
  - intros (-> & -> & -> & Hq & Hd)%IH.
    unfold branchUpdate. by case_decide.
Qed.

Lemma branchReports_length node progress resumed :
  length (branchReports node progress resumed) = length resumed.
Proof.
  revert progress. induction resumed as [|q resumed IH]; intros progress;
    [done|].
  simpl. by rewrite IH.
Qed.

Lemma nodeReports_totalQueries node followUpQuestions resumed k p :
  nodeReports node followUpQuestions resumed !! k = Some p →
  totalQueries p = Z.of_nat (length followUpQuestions).
Proof.
  unfold nodeReports. destruct k as [|k]; simpl.
  - by intros [= <-].
  - by intros (-> & _)%branchReports_fields.
Qed.

(** In every snapshot that a call reports, [totalQueries] is the number of
    its follow-up questions and [totalDepth] and [totalBreadth] are the
    depth and breadth of that very call (for a recursive call: not those of
    the run).  The first snapshot shows the first question; each later one
    shows the question of the branch that has just resumed and, as
    [currentDepth], the remaining depth [max 0 (depth - 1)].  As long as no
    more branches resume than there are questions, [completedQueries] does
    not exceed [totalQueries]. *)
Theorem snapshot_fields (node : Node.t) (followUpQuestions resumed : list Question)
    (k : nat) (p : ResearchProgress) :
  nodeReports node followUpQuestions resumed !! k = Some p →
  totalQueries p = Z.of_nat (length followUpQuestions) ∧
  totalDepth p = Node.depth node ∧
  totalBreadth p = Node.breadth node ∧
  (k = 0%nat →
     currentQuery p = question <$> head followUpQuestions ∧
     currentDepth p = Node.depth node) ∧
  (∀ k', k = S k' →
     currentQuery p = question <$> resumed !! k' ∧
     currentDepth p = Z.max 0 (Node.depth node - 1)) ∧
  ((length resumed ≤ length followUpQuestions)%nat →
     completedQueries p ≤ totalQueries p).
Proof.
  intros Hk. pose proof (nodeReports_completed _ _ _ _ _ Hk) as Hc.
  pose proof (lookup_lt_Some _ _ _ Hk) as Hlt.
  unfold nodeReports in Hk, Hlt. destruct k as [|k]; simpl in Hk.
  - injection Hk as <-. simpl. split_and!; try done. intros _. lia.
  - simpl in Hlt. rewrite branchReports_length in Hlt.
    apply branchReports_fields in Hk as (Ht & Hd & Hb & Hq & Hcd). simpl in *.
    split_and!; try done.
    + by intros k' [= <-].
    + intros Hle. rewrite Hc, Ht. lia.
Qed.

Lemma snapshot_fields_witness :
  totalQueries
    {| currentDepth := 0; totalDepth := 1; currentBreadth := 3;
       totalBreadth := 3; currentQuery := Some "q2";
       totalQueries := 3; completedQueries := 1 |} = 3.
Proof.
  refine (proj1 (snapshot_fields (root "X" 3 1) sampleQuestions
                   [mkQuestion "q2" "r2"; mkQuestion "q0" "r0"] 1 _ _)).
  vm_compute. reflexivity.
Defined.

Lemma resumedInOrder_length tool path i qs :
  (length (resumedInOrder tool path i qs) ≤ length qs)%nat ∧
  (length (resumedInOrder tool path i qs) = length qs ↔
   ∀ j q, qs !! j = Some q →
     isResolved (execute tool (path ++ [(i + j)%nat]) (question q)) = true).
Proof.
  revert i. induction qs as [|q0 qs IH]; intros i.
  - split; [done|]. split; [by intros _ j q|done].
  - destruct (IH (S i)) as [Hle Hiff]. cbn [resumedInOrder].
    destruct (isResolved (execute tool (path ++ [i]) (question q0))) eqn:E;
      simpl.
    + split; [lia|]. split.
      * intros Hlen%Nat.succ_inj. pose proof (proj1 Hiff Hlen) as Hall.
        clear Hlen. rename Hall into Hlen.
        intros [|j] q; simpl.
        -- intros [= <-]. by rewrite Nat.add_0_r.
        -- intros Hj. replace (i + S j)%nat with (S i + j)%nat by lia.
           by apply Hlen.
      * intros Hall. f_equal. apply Hiff. intros j q Hj.
        replace (S i + j)%nat with (i + S j)%nat by lia. by apply (Hall (S j)).
    + split; [lia|]. split; [lia|]. intros Hall.
      specialize (Hall 0%nat q0 eq_refl). rewrite Nat.add_0_r in Hall. congruence.
Qed.

(** A branch whose tool call fails reports nothing.  So the last snapshot
    of a call that does not recurse (depth ≤ 1) shows as [completedQueries]
    the number of tool calls that succeeded, and reaches [totalQueries]
    exactly when every tool call succeeded. *)
Theorem failed_branches_are_not_counted (fuel : nat) (w : World)
    (path : list nat) (node : Node.t) (tool : Tool)
    (followUpQuestions : list Question) :
  questionsOf w path node = Some (tool, followUpQuestions) →
  Node.depth node ≤ 1 →
  ∃ log p,
    progressLog_fuel (S fuel) w path node = Some log ∧
    last log = Some p ∧
    length log = S (length (resumedInOrder tool path 0 followUpQuestions)) ∧
    completedQueries p =
      Z.of_nat (length (resumedInOrder tool path 0 followUpQuestions)) ∧
    totalQueries p = Z.of_nat (length followUpQuestions) ∧
    (completedQueries p = totalQueries p ↔
     ∀ j q, followUpQuestions !! j = Some q →
       isResolved (execute tool (path ++ [j]) (question q)) = true).
Proof.
  intros Hq Hd.
  rewrite (progressLog_no_recursion _ _ _ _ _ _ Hq) by lia.
  set (resumed := resumedInOrder tool path 0 followUpQuestions).
  assert (length (nodeReports node followUpQuestions resumed) =
            S (length resumed)) as Hlen.
  { unfold nodeReports. simpl. by rewrite branchReports_length. }
  destruct (lookup_lt_is_Some_2 (nodeReports node followUpQuestions resumed)
              (length resumed)) as [p Hp]; [lia|].
  exists (nodeReports node followUpQuestions resumed), p.
  pose proof (nodeReports_completed _ _ _ _ _ Hp) as Hc.
  pose proof (nodeReports_totalQueries node followUpQuestions resumed _ _ Hp)
    as Ht.
  split_and!; [done| |done|done|done|].
  - by rewrite last_lookup, Hlen.
  - rewrite Hc, Ht.
    destruct (resumedInOrder_length tool path 0 followUpQuestions) as [_ Hiff].
    fold resumed in Hiff. split.
    + intros Heq. apply Hiff. lia.
    + intros Hall. f_equal. by apply Hiff.
Qed.

Lemma failed_branches_are_not_counted_witness :
  ∃ log p,
    progressLog_fuel 1 (sampleWorld [] [[1%nat]]) [] (root "X" 3 1) = Some log ∧
    last log = Some p ∧
    completedQueries p = 2 ∧ totalQueries p = 3.
Proof.
  destruct (failed_branches_are_not_counted 0 (sampleWorld [] [[1%nat]]) []
              (root "X" 3 1) (sampleTool [[1%nat]]) sampleQuestions)
    as (log & p & Hlog & Hlast & _ & Hc & Ht & _).
  - vm_compute. reflexivity.
  - simpl. lia.
  - exists log, p. split_and!; [exact Hlog | exact Hlast | exact Hc | exact Ht].
Defined.

(** * The tools module *)

Lemma truthy_false (s : option string) :
  truthy s = false ↔ s = None ∨ s = Some "".
Proof.
  destruct s as [s|]; simpl.
  - rewrite bool_decide_eq_false. split.
    + intros Hs. right. f_equal. by destruct (decide (s = "")).
    + intros [?|[= ->]]; [done|]. by intros ?.
  - split; [by left|done].
Qed.

Lemma truthy_true (s : option string) :
  truthy s = true ↔ ∃ v, s = Some v ∧ v ≠ "".
Proof.
  destruct s as [s|]; simpl.
  - rewrite bool_decide_eq_true. split; [by exists s|by intros (v & [= ->] & ?)].
  - split; [done|by intros (v & ? & _)].
Qed.

Lemma jsonHeaders_lookup extra k :
  jsonHeaders extra !! k =
    match extra !! k with
    | Some v => Some v
    | None =>
        if decide (k = "Content-Type") then Some "application/json"
        else if decide (k = "accept") then Some "application/json"
        else None
    end.
Proof.
  unfold jsonHeaders. rewrite !lookup_union, !lookup_singleton.
  destruct (extra !! k) as [v|]; simpl.
  - by repeat case_decide.
  - repeat case_decide; simplify_eq; done.
Qed.

Lemma readResponse_Ok fetched v :
  readResponse fetched = Ok v ↔
  ∃ response, fetched = Ok response ∧ Response.ok response = true ∧
              Response.json response = Ok v.
Proof.
  unfold readResponse. destruct fetched as [response|e].
  - destruct (Response.ok response) eqn:Hok.
    + split; [by exists response|]. by intros (? & [= <-] & _ & ?).
    + split; [done|]. intros (? & [= <-] & ? & _). congruence.
  - split; [done|]. by intros (? & ? & _).
Qed.

(** [callAgent] hands at most one request to [fetch], and none when
    AGENT_API_URL is unset or empty: it then throws "AGENT_API_URL
    environment variable is not set".  It returns a value exactly when the
    one request got an ok response whose body parsed, and the value is that
    body.  A response that is not ok throws "HTTP error! status: <status>"
    without its body being read, and what [fetch] throws is thrown on
    unchanged. *)
Theorem callAgent_outcome (env : Env) (fetch : Fetch) (agentId content : string)
    (options : AgentCallOptions.t) (requests : list Request.t)
    (r : result AgentResponse.t) :
  callAgent env fetch agentId content options = (requests, r) →
  (requests = [] ↔
     env "AGENT_API_URL" = None ∨ env "AGENT_API_URL" = Some "") ∧
  (requests = [] →
     r = Throw (JsError "AGENT_API_URL environment variable is not set")) ∧
  (∀ request, request ∈ requests →
     requests = [request] ∧
     Request.method request = "POST" ∧
     ∃ base, env "AGENT_API_URL" = Some base ∧
             Request.url request = base +:+ "/agents/chat") ∧
  (∀ v, r = Ok v ↔
     ∃ request response,
       requests = [request] ∧ fetch request = Ok response ∧
       Response.ok response = true ∧ Response.json response = Ok v) ∧
  (∀ request response,
     requests = [request] → fetch request = Ok response →
     Response.ok response = false →
     r = Throw (JsError ("HTTP error! status: " +:+
                         pretty (Response.status response)))) ∧
  (∀ request e,
     requests = [request] → fetch request = Throw e → r = Throw e).
Proof.
  unfold callAgent.
  destruct (truthy (env "AGENT_API_URL")) eqn:Hbase; simpl.
  - apply truthy_true in Hbase as (base & Hbase & Hne). rewrite Hbase. simpl.
    intros [= <- <-]. split_and!.
    + split; [done|]. intros [?|[= ?]]; congruence.
    + done.
    + intros request ->%list_elem_of_singleton. split_and!; [done..|].
      by exists base.
    + intros v. rewrite readResponse_Ok. split.
      * intros (response & ? & ? & ?). by eexists _, response.
      * intros (request & response & [= <-] & ? & ? & ?). by exists response.
    + intros request response [= <-] Hf Hok. unfold readResponse.
      by rewrite Hf, Hok.
    + intros request e [= <-] Hf. unfold readResponse. by rewrite Hf.
  - apply truthy_false in Hbase. intros [= <- <-].
    split_and!; try done.
    + by intros request ?%elem_of_nil.
    + intros v. split; [done|]. by intros (? & ? & ? & _).
Qed.

Lemma callAgent_outcome_witness :
  Throw (JsError "HTTP error! status: 404") =
    Throw (JsError ("HTTP error! status: " +:+ pretty 404%N)) (A:=AgentResponse.t).
Proof.
  pose (fetch := (λ _, Ok {| Response.ok := false; Response.status := 404%N;
                             Response.json := Throw (Foreign "not read") |})
                 : Fetch).
  refine (proj1 (proj2 (proj2 (proj2 (proj2
    (callAgent_outcome sampleEnv fetch "a1" "hello"
       (AgentCallOptions.mk None None)
       (callAgent sampleEnv fetch "a1" "hello" (AgentCallOptions.mk None None)).1
       (Throw (JsError "HTTP error! status: 404")) _)))))
    _ _ eq_refl eq_refl eq_refl).
  vm_compute. reflexivity.
Defined.

(** The request of [callAgent]: the headers of the caller win over the two
    default headers, which are present otherwise; the abort delay is the
    caller's timeout, and 30000 when that is absent or 0, so never 0; the
    body carries the agent, the content and the USER_ID of the
    environment. *)
Theorem callAgent_request (env : Env) (fetch : Fetch) (agentId content : string)
    (options : AgentCallOptions.t) (request : Request.t) :
  request ∈ (callAgent env fetch agentId content options).1 →
  (∀ k, Request.headers request !! k =
        match default ∅ (AgentCallOptions.headers options) !! k with
        | Some v => Some v
        | None =>
            if decide (k = "Content-Type") then Some "application/json"
            else if decide (k = "accept") then Some "application/json"
            else None
        end) ∧
  (∃ t, Request.abortAfter request = Some t ∧ t ≠ 0 ∧
        (∀ t', AgentCallOptions.timeout options = Some t' → t' ≠ 0 → t = t') ∧
        (AgentCallOptions.timeout options = None ∨
         AgentCallOptions.timeout options = Some 0 → t = 30000)) ∧
  ∃ b, Request.body request = ChatBody b ∧
       AgentRequestBody.agentId b = agentId ∧
       AgentRequestBody.content b = content ∧
       AgentRequestBody.userId b = env "USER_ID" ∧
       AgentRequestBody.metadataFilterExpression b = None.
Proof.
  unfold callAgent.
  destruct (truthy (env "AGENT_API_URL")); simpl;
    [|by intros ?%elem_of_nil].
  intros ->%list_elem_of_singleton. simpl. split_and!.
  - intros k. apply jsonHeaders_lookup.
  - eexists. split; [done|]. unfold timeoutOrDefault.
    destruct (AgentCallOptions.timeout options) as [t|]; [case_decide|];
      split_and!; try done.
    + intros t' [= <-] ?. done.
    + by intros t' [= <-] ?.
    + intros [?|[= ?]]; done.
  - by eexists.
Qed.

Lemma callAgent_request_witness :
  ∃ t, Some (30000 : Z) = Some t ∧ t ≠ 0.
Proof.
  destruct (proj1 (proj2 (callAgent_request sampleEnv sampleFetch "a1" "hello"
              (AgentCallOptions.mk None (Some 0)) _ (list_elem_of_here _ _))))
    as (t & Ht & Hne & _).
  exists t. split; [exact Ht | exact Hne].
Defined.

Lemma callAgent_unfold env fetch agentId content options :
  callAgent env fetch agentId content options =
    if truthy (env "AGENT_API_URL") then
      ([ {| Request.url := default "" (env "AGENT_API_URL") +:+ "/agents/chat";
            Request.method := "POST";
            Request.headers :=
              jsonHeaders (default ∅ (AgentCallOptions.headers options));
            Request.body := ChatBody
              {| AgentRequestBody.elzSessionId := Some "123";
                 AgentRequestBody.elzRequestCount := Some 0;
                 AgentRequestBody.userId := env "USER_ID";
                 AgentRequestBody.agentId := agentId;
                 AgentRequestBody.content := content;
                 AgentRequestBody.useHistory := Some false;
                 AgentRequestBody.returnRagContext := Some false;
                 AgentRequestBody.retrieverStrategy := Some "RAG";
                 AgentRequestBody.metadataFilterExpression := None;
                 AgentRequestBody.chunkCount := Some 20 |};
            Request.abortAfter :=
              Some (timeoutOrDefault (AgentCallOptions.timeout options)) |} ],
       readResponse (fetch
         {| Request.url := default "" (env "AGENT_API_URL") +:+ "/agents/chat";
            Request.method := "POST";
            Request.headers :=
              jsonHeaders (default ∅ (AgentCallOptions.headers options));
            Request.body := ChatBody
              {| AgentRequestBody.elzSessionId := Some "123";
                 AgentRequestBody.elzRequestCount := Some 0;
                 AgentRequestBody.userId := env "USER_ID";
                 AgentRequestBody.agentId := agentId;
                 AgentRequestBody.content := content;
                 AgentRequestBody.useHistory := Some false;
                 AgentRequestBody.returnRagContext := Some false;
                 AgentRequestBody.retrieverStrategy := Some "RAG";
                 AgentRequestBody.metadataFilterExpression := None;
                 AgentRequestBody.chunkCount := Some 20 |};
            Request.abortAfter :=
              Some (timeoutOrDefault (AgentCallOptions.timeout options)) |}))
    else ([], Throw (JsError "AGENT_API_URL environment variable is not set")).
Proof. unfold callAgent. by destruct (truthy (env "AGENT_API_URL")). Qed.

(** [apiSearch] checks SEARCH_AGENT_ID before anything else: when it is
    unset or empty no request is sent and the error names SEARCH_AGENT_ID,
    also when AGENT_API_URL is missing as well.  A result it returns has
    exactly one item, whose markdown is the content of the agent's response
    and whose url is the empty string; the one request then went to the
    search agent with the query as content, carried the header
    X-Jwt-Assertion (the JWT_TOKEN of the environment, or the empty string),
    and was given the timeout of the options (30000 for 0).  The fields
    [limit] and [scrapeOptions] of the options have no effect. *)
Theorem apiSearch_outcome (env : Env) (fetch : Fetch) (query : string)
    (options : ApiSearchOptions.t) :
  (env "SEARCH_AGENT_ID" = None ∨ env "SEARCH_AGENT_ID" = Some "" →
     apiSearch env fetch query options =
       ([], Throw (JsError "SEARCH_AGENT_ID environment variable is not set"))) ∧
  (∀ found, (apiSearch env fetch query options).2 = Ok found →
     ∃ request response agentResponse searchAgentId b,
       (apiSearch env fetch query options).1 = [request] ∧
       env "SEARCH_AGENT_ID" = Some searchAgentId ∧
       Request.body request = ChatBody b ∧
       AgentRequestBody.agentId b = searchAgentId ∧
       AgentRequestBody.content b = query ∧
       Request.headers request !! "X-Jwt-Assertion" =
         Some (default "" (env "JWT_TOKEN")) ∧
       Request.abortAfter request =
         Some (if decide (ApiSearchOptions.timeout options = 0) then 30000
               else ApiSearchOptions.timeout options) ∧
       fetch request = Ok response ∧
       Response.ok response = true ∧
       Response.json response = Ok agentResponse ∧
       found = {| data := [ {| markdown := Some (AgentResponse.content agentResponse);
                               url := Some "" |} ] |}) ∧
  (∀ limit formats,
     apiSearch env fetch query
       (ApiSearchOptions.mk (ApiSearchOptions.timeout options) limit formats) =
     apiSearch env fetch query options).
Proof.
  split_and!.
  - intros Hs%truthy_false. unfold apiSearch. by rewrite Hs.
  - intros found. unfold apiSearch.
    destruct (truthy (env "SEARCH_AGENT_ID")) eqn:Hs; simpl; [|done].
    apply truthy_true in Hs as (searchAgentId & Hs & _). rewrite Hs. simpl.
    rewrite callAgent_unfold.
    destruct (truthy (env "AGENT_API_URL")); simpl; [|done].
    match goal with
    | |- context [readResponse ?f] => destruct (readResponse f) as [v|e] eqn:Hr
    end; [|done].
    intros [= <-]. apply readResponse_Ok in Hr as (response & Hf & Hok & Hj).
    eexists _, response, v, searchAgentId, _.
    split_and!; done.
  - done.
Qed.

Lemma apiSearch_outcome_witness :
  apiSearch (λ name, if decide (name = "SEARCH_AGENT_ID") then Some "" else None)
    sampleFetch "q" (ApiSearchOptions.mk 5000 3 ["markdown"]) =
    ([], Throw (JsError "SEARCH_AGENT_ID environment variable is not set")).
Proof.
  apply (proj1 (apiSearch_outcome
           (λ name, if decide (name = "SEARCH_AGENT_ID") then Some "" else None)
           sampleFetch "q" (ApiSearchOptions.mk 5000 3 ["markdown"]))).
  right. reflexivity.
Defined.

(** The market intelligence tool checks AGENT_API_URL first and
    MARKET_INTELLIGENCE_AGENT_ID second, and sends nothing when either is
    unset or empty.  Otherwise it sends the request that [callAgent] would
    send for that agent, the query and the header X-Jwt-Assertion, except
    that the body also carries the metadata filter and that the request has
    no abort signal, so no timeout, whereas one of [callAgent] always
    has. *)
Theorem marketIntelligence_like_callAgent (env : Env) (fetch : Fetch)
    (query : string) (metadataFilter : option string) (timeout : option Z) :
  (env "AGENT_API_URL" = None ∨ env "AGENT_API_URL" = Some "" →
     marketIntelligence_execute env fetch query metadataFilter =
       ([], Throw (JsError "AGENT_API_URL environment variable is not set"))) ∧
  (truthy (env "AGENT_API_URL") = true →
   env "MARKET_INTELLIGENCE_AGENT_ID" = None ∨
   env "MARKET_INTELLIGENCE_AGENT_ID" = Some "" →
     marketIntelligence_execute env fetch query metadataFilter =
       ([], Throw (JsError
              "MARKET_INTELLIGENCE_AGENT_ID environment variable is not set"))) ∧
  (∀ agentId,
     truthy (env "AGENT_API_URL") = true →
     env "MARKET_INTELLIGENCE_AGENT_ID" = Some agentId → agentId ≠ "" →
     ∃ sent wouldSend b,
       marketIntelligence_execute env fetch query metadataFilter =
         ([sent], readResponse (fetch sent)) ∧
       (callAgent env fetch agentId query
          {| AgentCallOptions.headers :=
               Some {[ "X-Jwt-Assertion" := default "" (env "JWT_TOKEN") ]};
             AgentCallOptions.timeout := timeout |}).1 = [wouldSend] ∧
       Request.url sent = Request.url wouldSend ∧
       Request.method sent = Request.method wouldSend ∧
       Request.headers sent = Request.headers wouldSend ∧
       Request.body wouldSend = ChatBody b ∧
       Request.body sent =
         ChatBody
           {| AgentRequestBody.elzSessionId := AgentRequestBody.elzSessionId b;
              AgentRequestBody.elzRequestCount := AgentRequestBody.elzRequestCount b;
              AgentRequestBody.userId := AgentRequestBody.userId b;
              AgentRequestBody.agentId := AgentRequestBody.agentId b;
              AgentRequestBody.content := AgentRequestBody.content b;
              AgentRequestBody.useHistory := AgentRequestBody.useHistory b;
              AgentRequestBody.returnRagContext :=
                AgentRequestBody.returnRagContext b;
              AgentRequestBody.retrieverStrategy :=
                AgentRequestBody.retrieverStrategy b;
              AgentRequestBody.metadataFilterExpression := metadataFilter;
              AgentRequestBody.chunkCount := AgentRequestBody.chunkCount b |} ∧
       Request.abortAfter sent = None ∧
       is_Some (Request.abortAfter wouldSend)).
Proof.
  split_and!.
  - intros Hb%truthy_false. unfold marketIntelligence_execute. by rewrite Hb.
  - intros Hb Ha%truthy_false. unfold marketIntelligence_execute.
    by rewrite Hb, Ha.
  - intros agentId Hb Ha Hne.
    assert (truthy (env "MARKET_INTELLIGENCE_AGENT_ID") = true) as Hta.
    { apply truthy_true. by exists agentId. }
    unfold marketIntelligence_execute. rewrite callAgent_unfold, Hb, Hta, Ha.
    simpl. eexists _, _, _. split_and!; done.
Qed.

Lemma marketIntelligence_like_callAgent_witness :
  ∃ sent,
    marketIntelligence_execute sampleEnv sampleFetch "q" (Some "year = 2024") =
      ([sent], readResponse (sampleFetch sent)) ∧
    Request.abortAfter sent = None.
Proof.
  destruct (proj2 (proj2 (marketIntelligence_like_callAgent sampleEnv sampleFetch
              "q" (Some "year = 2024") None)) "market-1")
    as (sent & wouldSend & b & Hm & _ & _ & _ & _ & _ & _ & Hab & _).
  - reflexivity.
  - reflexivity.
  - intros [=].
  - exists sent. split; [exact Hm | exact Hab].
Defined.

(** The client-UPID tool, as the engine calls it, posts to
    <AGENT_API_URL>/agents/<agent>/functions/Get_Client_UPID/call with the
    question under the key "query", the only argument, and with the header
    X-Jwt-Assertion; the request has no abort signal.  The agent is
    CLIENT_UPID_AGENT_ID; when that is unset the request is sent all the
    same, with an empty agent: to <AGENT_API_URL>/agents//functions/... *)
Theorem clientUPIDTool_request (env : Env) (net : list nat → Fetch)
    (path : list nat) (query base : string) :
  env "AGENT_API_URL" = Some base → base ≠ "" →
  ∃ request,
    (clientUPID_execute env (net path) [("query", query)]).1 = [request] ∧
    execute (clientUPIDTool env net) path query =
      settled (readResponse (net path request)) ∧
    Request.url request =
      base +:+ "/agents/" +:+ default "" (env "CLIENT_UPID_AGENT_ID")
        +:+ "/functions/Get_Client_UPID/call" ∧
    (env "CLIENT_UPID_AGENT_ID" = None →
       Request.url request = base +:+ "/agents//functions/Get_Client_UPID/call") ∧
    Request.method request = "POST" ∧
    Request.body request =
      FunctionBody
        {| AgentFunctionRequest.agentId := default "" (env "CLIENT_UPID_AGENT_ID");
           AgentFunctionRequest.funcNameKey := "Get_Client_UPID";
           AgentFunctionRequest.arguments := [("query", query)] |} ∧
    Request.headers request !! "X-Jwt-Assertion" =
      Some (default "" (env "JWT_TOKEN")) ∧
    Request.headers request !! "Content-Type" = Some "application/json" ∧
    Request.abortAfter request = None.
Proof.
  intros Hb Hne.
  assert (truthy (env "AGENT_API_URL") = true) as Ht.
  { apply truthy_true. by exists base. }
  unfold clientUPIDTool, clientUPID_execute, createFunctionTool_execute,
    callAgentFunction. simpl. rewrite Ht, Hb. simpl.
  eexists. split_and!; try done.
  by intros ->.
Qed.

Lemma clientUPIDTool_request_witness :
  ∃ request,
    (clientUPID_execute sampleEnv sampleFetch [("query", "who")]).1 = [request] ∧
    Request.url request =
      "https://agents.example/agents//functions/Get_Client_UPID/call".
Proof.
  destruct (clientUPIDTool_request sampleEnv (λ _, sampleFetch) [] "who"
              "https://agents.example") as (request & Hr & _ & _ & Hu & _).
  - reflexivity.
  - intros [=].
  - exists request. split; [exact Hr|]. apply Hu. reflexivity.
Defined.

Lemma toolCatalog_lookup env net name :
  lookupTool (toolCatalog env net) name =
    if decide ("marketIntelligence" = name) then Some (marketIntelligenceAgent env net)
    else if decide ("getClientUPID" = name) then Some (clientUPIDTool env net)
    else if decide (name ∈ inheritedNames) then Some inheritedTool
    else None.
Proof. unfold lookupTool, toolCatalog. simpl. by repeat case_decide. Qed.

Lemma serviceWorld_tool env net classify expand path query :
  determineResearchTool (serviceWorld env net classify expand) path query =
    match classify path query with
    | Resolved (toolName, reason) =>
        Resolved (lookupTool (toolCatalog env net) toolName, reason)
    | Rejected => Rejected
    end.
Proof. done. Qed.

Lemma all_caught_empty_result fuel w path node tool qs :
  questionsOf w path node = Some (tool, qs) →
  (∀ j q, qs !! j = Some q →
     execute tool (path ++ [j]) (question q) = Rejected) →
  deepResearch_fuel (S fuel) w path node =
    Some (Resolved {| learnings := []; sources := []; compliance_scores := Some [] |}).
Proof.
  intros Hq Hall.
  destruct (deepResearch_fuel_all_resolved fuel w path node tool qs Hq)
    as (results & -> & Hlen & Hres).
  { intros j q Hj. eexists. by apply branch_caught, Hall. }
  do 2 f_equal. apply aggregate_all_empty. intros r Hr.
  apply list_elem_of_lookup_1 in Hr as [j Hj].
  destruct (lookup_lt_is_Some_2 qs j) as [q Hqj].
  { rewrite <- Hlen. by eapply lookup_lt_Some. }
  destruct (Hres _ _ Hqj) as (r' & Hr' & Hb).
  rewrite (branch_caught _ _ _ _ _ _ (Hall _ _ Hqj)) in Hb. by simplify_eq.
Qed.

Lemma inheritedNames_not_own name :
  name ∈ inheritedNames → "marketIntelligence" ≠ name ∧ "getClientUPID" ≠ name.
Proof.
  intros Hin. split; intros <-; revert Hin.
  - apply (bool_decide_unpack ("marketIntelligence" ∉ inheritedNames)).
    vm_compute. exact I.
  - apply (bool_decide_unpack ("getClientUPID" ∉ inheritedNames)).
    vm_compute. exact I.
Qed.

(** The catalog object has two tools of its own, marketIntelligence and
    getClientUPID, and the properties that every object inherits.  When the
    oracle answers the top-level call with a name that is neither, however
    close to a tool's name, the run rejects.  An inherited name, such as
    constructor, is taken for a tool: the run goes on to ask for follow-up
    questions, with the description undefined, and rejects only if that
    call fails; otherwise every tool call throws, every branch is caught and
    the run resolves to the empty result. *)
Theorem tool_name_decides_the_run (env : Env) (net : list nat → Fetch)
    (classify : list nat → string → outcome (string * string))
    (expand : list nat → string → string → list string → outcome (list Question))
    (query : string) (breadth depth : Z) (name reason : string) :
  classify [] query = Resolved (name, reason) →
  (is_Some (lookupTool (toolCatalog env net) name) ↔
     name = "marketIntelligence" ∨ name = "getClientUPID" ∨
     name ∈ inheritedNames) ∧
  (name ≠ "marketIntelligence" → name ≠ "getClientUPID" →
   name ∉ inheritedNames →
     deepResearch (serviceWorld env net classify expand)
       (root query breadth depth) = Some Rejected) ∧
  (name ∈ inheritedNames →
     (expand [] query "undefined" [] = Rejected →
        deepResearch (serviceWorld env net classify expand)
          (root query breadth depth) = Some Rejected) ∧
     (∀ questions, expand [] query "undefined" [] = Resolved questions →
        deepResearch (serviceWorld env net classify expand)
          (root query breadth depth) =
          Some (Resolved {| learnings := []; sources := [];
                            compliance_scores := Some [] |}))).
Proof.
  intros Hc.
  assert (determineResearchTool (serviceWorld env net classify expand) [] query =
            Resolved (lookupTool (toolCatalog env net) name, reason)) as Htool.
  { by rewrite serviceWorld_tool, Hc. }
  split_and!.
  - rewrite toolCatalog_lookup. split.
    + repeat case_decide; subst; intros [tool Ht]; try done; auto.
    + intros [->|[->|Hin]].
      * rewrite decide_True by done. by eexists.
      * rewrite decide_False, decide_True by done. by eexists.
      * destruct (inheritedNames_not_own _ Hin).
        rewrite !decide_False, decide_True by done. by eexists.
  - intros H1 H2 H3.
    apply (no_questions_propagates _ [] _ [] (root query breadth depth));
      [done| |apply deepResearch_enough_fuel].
    unfold questionsOf.
    change (Node.query (root query breadth depth)) with query.
    change ([] ++ [] : list nat) with (@nil nat).
    rewrite Htool, toolCatalog_lookup.
    by rewrite !decide_False by congruence.
  - intros Hin. destruct (inheritedNames_not_own _ Hin) as [H1 H2].
    assert (lookupTool (toolCatalog env net) name = Some inheritedTool) as Hl.
    { rewrite toolCatalog_lookup. by rewrite !decide_False, decide_True by done. }
    split.
    + intros He.
      apply (no_questions_propagates _ [] _ [] (root query breadth depth));
        [done| |apply deepResearch_enough_fuel].
      unfold questionsOf, generateFollowUpQuestions.
      change (Node.query (root query breadth depth)) with query.
      change ([] ++ [] : list nat) with (@nil nat).
      rewrite Htool, Hl. simpl. by rewrite He.
    + intros questions He.
      apply all_caught_empty_result
        with inheritedTool (slice0 breadth questions); [|done].
      unfold questionsOf, generateFollowUpQuestions.
      change (Node.query (root query breadth depth)) with query.
      rewrite Htool, Hl. simpl. by rewrite He.
Qed.

Lemma tool_name_decides_the_run_witness :
  deepResearch
    (serviceWorld sampleEnv (λ _, sampleFetch)
       (λ _ _, Resolved ("constructor", "inherited"))
       (λ _ _ _ _, Resolved sampleQuestions))
    (root "X" 2 1) =
    Some (Resolved {| learnings := []; sources := []; compliance_scores := Some [] |}) ∧
  deepResearch
    (serviceWorld sampleEnv (λ _, sampleFetch)
       (λ _ _, Resolved ("MarketIntelligence", "capitalised"))
       (λ _ _ _ _, Resolved sampleQuestions))
    (root "X" 2 1) = Some Rejected.
Proof.
  split.
  - refine (proj2 (proj2 (proj2 (tool_name_decides_the_run sampleEnv
             (λ _, sampleFetch) (λ _ _, Resolved ("constructor", "inherited"))
             (λ _ _ _ _, Resolved sampleQuestions)
             "X" 2 1 "constructor" "inherited" eq_refl)) _) sampleQuestions eq_refl).
    apply (bool_decide_unpack ("constructor" ∈ inheritedNames)).
    vm_compute. exact I.
  - refine (proj1 (proj2 (tool_name_decides_the_run sampleEnv
             (λ _, sampleFetch)
             (λ _ _, Resolved ("MarketIntelligence", "capitalised"))
             (λ _ _ _ _, Resolved sampleQuestions)
             "X" 2 1 "MarketIntelligence" "capitalised" eq_refl)) _ _ _).
    + intros [=].
    + intros [=].
    + apply (bool_decide_unpack ("MarketIntelligence" ∉ inheritedNames)).
      vm_compute. exact I.
Defined.

(** A missing AGENT_API_URL does not make a run fail.  Every tool call
    throws before sending anything, every branch is caught, and the
    top-level call, once its two oracle calls have succeeded, resolves to
    the empty result. *)
Theorem missing_base_url_gives_empty_result (env : Env) (net : list nat → Fetch)
    (classify : list nat → string → outcome (string * string))
    (expand : list nat → string → string → list string → outcome (list Question))
    (query : string) (breadth depth : Z) (tool : Tool)
    (followUpQuestions : list Question) :
  env "AGENT_API_URL" = None ∨ env "AGENT_API_URL" = Some "" →
  questionsOf (serviceWorld env net classify expand) []
    (root query breadth depth) = Some (tool, followUpQuestions) →
  (∀ path question, execute tool path question = Rejected) ∧
  deepResearch (serviceWorld env net classify expand) (root query breadth depth) =
    Some (Resolved {| learnings := []; sources := []; compliance_scores := Some [] |}).
Proof.
  intros Hb%truthy_false Hq.
  assert (∀ path question, execute tool path question = Rejected) as Hx.
  { destruct (questionsOf_catalog _ _ _ _ _ Hq) as [name Hname].
    change (researchTools (serviceWorld env net classify expand))
      with (toolCatalog env net) in Hname.
    rewrite toolCatalog_lookup in Hname.
    intros path question.
    repeat case_decide; simplify_eq; simpl.
    - unfold marketIntelligence_execute. by rewrite Hb.
    - unfold clientUPID_execute, createFunctionTool_execute, callAgentFunction.
      by rewrite Hb.
    - done. }
  split; [done|]. apply all_caught_empty_result with tool followUpQuestions;
    [done|]. intros j q _. apply Hx.
Qed.

Lemma missing_base_url_gives_empty_result_witness :
  deepResearch
    (serviceWorld (λ _, None) (λ _, sampleFetch)
       (λ _ _, Resolved ("marketIntelligence", "best match"))
       (λ _ _ _ _, Resolved sampleQuestions))
    (root "X" 3 2) =
    Some (Resolved {| learnings := []; sources := []; compliance_scores := Some [] |}).
Proof.
  refine (proj2 (missing_base_url_gives_empty_result (λ _, None) (λ _, sampleFetch)
           (λ _ _, Resolved ("marketIntelligence", "best match"))
           (λ _ _ _ _, Resolved sampleQuestions) "X" 3 2
           (marketIntelligenceAgent (λ _, None) (λ _, sampleFetch))
           sampleQuestions _ _)).
  - by left.
  - vm_compute. reflexivity.
Defined.

(** * Further properties of the scheduling *)

Lemma start_zero tasks : start 0 tasks = tasks.
Proof.
  induction tasks as [|t tasks IH]; [done|]. cbn [start]. by rewrite IH.
Qed.

Lemma start_fills free tasks :
  existsb isQueued (start free tasks) = false ∨
  activeCount (start free tasks) = (activeCount tasks + free)%nat.
Proof.
  revert free. induction tasks as [|t tasks IH]; intros free; [by left|].
  destruct free as [|free]; [right; by rewrite start_zero, Nat.add_0_r|].
  destruct t; cbn [start].
  - destruct (IH free) as [Hn|Ha]; [left; simpl; done|right].
    rewrite !activeCount_cons, Ha. simpl. lia.
  - destruct (IH (S free)) as [Hn|Ha]; [left; simpl; done|right].
    rewrite !activeCount_cons, Ha. lia.
  - destruct (IH (S free)) as [Hn|Ha]; [left; simpl; done|right].
    rewrite !activeCount_cons, Ha. lia.
  - destruct (IH (S free)) as [Hn|Ha]; [left; simpl; done|right].
    rewrite !activeCount_cons, Ha. lia.
Qed.

Lemma schedule_noIdleSlot tasks :
  (activeCount tasks ≤ ConcurrencyLimit)%nat → noIdleSlot (schedule tasks) = true.
Proof.
  intros Hle. unfold noIdleSlot, schedule.
  destruct (start_fills (ConcurrencyLimit - activeCount tasks) tasks) as [->|Ha];
    [done|].
  apply orb_true_intro. right. apply bool_decide_eq_true. lia.
Qed.

Lemma start_all_queued free tasks :
  forallb isQueued tasks = true → queuedLast (start free tasks) = true.
Proof.
  revert free. induction tasks as [|t tasks IH]; intros free; [done|].
  simpl. intros [Ht Hrest]%andb_prop. destruct t; try done.
  destruct free as [|free]; simpl.
  - by rewrite start_zero.
  - by apply IH.
Qed.

Lemma start_queuedLast free tasks :
  queuedLast tasks = true → queuedLast (start free tasks) = true.
Proof.
  revert free. induction tasks as [|t tasks IH]; intros free; [done|].
  destruct t; cbn [queuedLast].
  - intros Hall. apply (start_all_queued free (Queued :: tasks)). simpl. done.
  - intros Hq. destruct free; cbn [start queuedLast]; by apply IH.
  - intros Hq. destruct free; cbn [start queuedLast]; by apply IH.
  - intros Hq. destruct free; cbn [start queuedLast]; by apply IH.
Qed.

Lemma queuedLast_ext tasks1 tasks2 :
  map isQueued tasks1 = map isQueued tasks2 →
  queuedLast tasks1 = queuedLast tasks2.
Proof.
  revert tasks2. induction tasks1 as [|t1 tasks1 IH]; intros [|t2 tasks2];
    try done.
  simpl. intros [= Ht Hrest].
  assert (forallb isQueued tasks1 = forallb isQueued tasks2) as Hall.
  { clear -Hrest. revert tasks2 Hrest.
    induction tasks1 as [|a l IH]; intros [|b k]; try done.
    simpl. intros [= -> Hrest]. by rewrite (IH k). }
  destruct t1, t2; try done; by apply IH.
Qed.

Lemma alter_stepTask_isQueued resumed stepBelow i tasks :
  (∀ t, resumed = Some t → isQueued t = false) →
  map isQueued (alter (stepTask resumed stepBelow) i tasks) = map isQueued tasks.
Proof.
  intros Hres. revert i. induction tasks as [|t tasks IH]; intros i; [done|].
  destruct i as [|i].
  - change (alter (stepTask resumed stepBelow) 0%nat (t :: tasks))
      with (stepTask resumed stepBelow t :: tasks).
    simpl. f_equal. destruct t; simpl; try done.
    destruct resumed as [t'|]; simpl; [by apply Hres|done].
  - change (alter (stepTask resumed stepBelow) (S i) (t :: tasks))
      with (t :: alter (stepTask resumed stepBelow) i tasks).
    simpl. by rewrite IH.
Qed.

Lemma toolReturn_not_queued depth p r t :
  toolReturn depth p r = Some t → isQueued t = false.
Proof.
  unfold toolReturn. destruct p; [|done]. destruct r as [| |ok]; try done.
  intros [= <-]. unfold resume. destruct ok; [by case_decide|done].
Qed.

Lemma toolReturn_wellScheduled depth p r t :
  toolReturn depth p r = Some t →
  match t with Descending c' => wellScheduled c' | _ => true end = true.
Proof.
  unfold toolReturn. destruct p; [|done]. destruct r as [| |ok]; try done.
  intros [= <-]. unfold resume. destruct ok; [by case_decide|done].
Qed.

Lemma stepCall_wellScheduled depth p r c :
  wellScheduled c = true → wellScheduled (stepCall depth p r c) = true.
Proof.
  revert depth c. induction p as [|i p IH]; intros depth c Hc.
  - destruct c; try done; destruct r as [[]|[n|]|]; try done.
    cbn [stepCall wellScheduled].
    assert (activeCount (replicate n Queued) ≤ ConcurrencyLimit)%nat as Hle.
    { rewrite activeCount_replicate_Queued. lia. }
    rewrite !andb_true_iff. split_and!.
    + by apply bool_decide_eq_true, schedule_activeCount.
    + apply start_all_queued. by apply forallb_replicate_Queued.
    + by apply schedule_noIdleSlot.
    + apply start_forallb; [done|]. by apply forallb_replicate_Queued.
  - destruct c; try done. cbn [stepCall wellScheduled] in *.
    rewrite !andb_true_iff in Hc.
    destruct Hc as [[[Hactive%bool_decide_eq_true Hq] _] Hbelow].
    assert (activeCount
              (alter (stepTask (toolReturn depth p r) (stepCall (depth - 1) p r))
                 i tasks) ≤ ConcurrencyLimit)%nat as Hle.
    { etrans; [|exact Hactive]. apply alter_activeCount.
      intros t. apply stepTask_holdsSlot. intros c. apply promise_stable. }
    rewrite !andb_true_iff. split_and!.
    + by apply bool_decide_eq_true, schedule_activeCount.
    + apply start_queuedLast. rewrite <- Hq. apply queuedLast_ext.
      apply alter_stepTask_isQueued. intros t. apply toolReturn_not_queued.
    + by apply schedule_noIdleSlot.
    + apply start_forallb; [done|]. apply alter_forallb; [|done].
      intros [| |c|]; simpl; try done.
      * intros _. destruct (toolReturn depth p r) as [t|] eqn:Ht; [|done].
        simpl. by apply (toolReturn_wellScheduled depth p r).
      * apply IH.
Qed.

Lemma callState_wellScheduled c p c' :
  wellScheduled c = true → callState c p = Some c' → wellScheduled c' = true.
Proof.
  revert c. induction p as [|i p IH]; intros c Hc; simpl.
  - by intros [= <-].
  - destruct c; try done. destruct (tasks !! i) as [[| |c''|]|] eqn:Hi; try done.
    apply IH. simpl in Hc. apply andb_prop in Hc as [_ Hbelow].
    apply (proj1 (forallb_forall _ _) Hbelow (Descending c'')).
    by eapply list_elem_of_In, list_elem_of_lookup_2.
Qed.

Lemma queuedLast_lookup tasks i j :
  queuedLast tasks = true → (i < j)%nat →
  tasks !! i = Some Queued → (j < length tasks)%nat →
  tasks !! j = Some Queued.
Proof.
  revert i j. induction tasks as [|t tasks IH]; intros i j; [done|].
  intros Hq Hij Hi Hj. destruct j as [|j]; [lia|]. simpl in Hj.
  destruct i as [|i]; simpl in Hi |- *.
  - injection Hi as ->. simpl in Hq.
    destruct (lookup_lt_is_Some_2 tasks j) as [t Ht]; [lia|].
    rewrite Ht. f_equal.
    assert (In t tasks) as Hin.
    { by eapply list_elem_of_In, list_elem_of_lookup_2. }
    pose proof (proj1 (forallb_forall _ _) Hq t Hin) as Hall.
    by destruct t.
  - apply (IH i j); [|lia|done|lia]. destruct t; try done.
    simpl in Hq. rewrite <- (start_zero tasks). by apply start_all_queued.
Qed.

Lemma runEvents_from_wellScheduled depth events c :
  wellScheduled c = true →
  wellScheduled (foldl (λ c e, stepCall depth e.1 e.2 c) c events) = true.
Proof.
  revert c. induction events as [|e events IH]; intros c Hc; [done|].
  simpl. by apply IH, stepCall_wellScheduled.
Qed.

(** Whatever the order in which the oracle and the tools return, every call
    starts the tasks of its follow-up questions in the order of the
    questions (a task that waits has only waiting tasks after it), and a
    task waits only while [ConcurrencyLimit] tasks of the same call hold a
    slot: running their tool call or awaiting their recursive call. *)
Theorem tasks_start_in_order_without_idling (depth : Z) (events : list Event)
    (p : list nat) (tasks : list (Task Call)) :
  callState (runEvents depth events) p = Some (FanOut tasks) →
  (∀ i j, (i < j)%nat → tasks !! i = Some Queued → (j < length tasks)%nat →
          tasks !! j = Some Queued) ∧
  (Queued ∈ tasks → activeCount tasks = ConcurrencyLimit).
Proof.
  intros Hc.
  assert (wellScheduled (runEvents depth events) = true) as Hinv.
  { by apply runEvents_from_wellScheduled. }
  pose proof (callState_wellScheduled _ _ _ Hinv Hc) as Hw. simpl in Hw.
  rewrite !andb_true_iff in Hw. destruct Hw as [[[_ Hq] Hidle] _]. split.
  - intros i j. by apply queuedLast_lookup.
  - intros Hin. unfold noIdleSlot in Hidle.
    apply orb_prop in Hidle as [Hn|Hfull%bool_decide_eq_true]; [|done].
    apply negb_true_iff in Hn.
    assert (existsb isQueued tasks = true) as Hex; [|congruence].
    apply existsb_exists. exists Queued. split; [by apply list_elem_of_In|done].
Qed.

Lemma tasks_start_in_order_without_idling_witness :
  activeCount [Descending (FanOut [Executing; Executing; Queued]);
               Executing; Queued; Queued; Queued] = ConcurrencyLimit.
Proof.
  refine (proj2 (tasks_start_in_order_without_idling 2
    [ ([], SelectionReturns true); ([], QuestionsReturn (Some 5%nat));
      ([0%nat], ToolReturns true); ([0%nat], SelectionReturns true);
      ([0%nat], QuestionsReturn (Some 3%nat)) ] [] _ _) _).
  - vm_compute. reflexivity.
  - apply elem_of_cons. right. apply elem_of_cons. right.
    apply elem_of_cons. by left.
Defined.

(** * The size of the call tree *)

Lemma questionsOf_length w path node tool qs :
  questionsOf w path node = Some (tool, qs) →
  0 ≤ Node.breadth node →
  Z.of_nat (length qs) ≤ Node.breadth node.
Proof.
  unfold questionsOf, generateFollowUpQuestions.
  destruct (determineResearchTool w path (Node.query node))
    as [[[tool'|] reason]|]; try done.
  destruct (expand w path (Node.query node) (description tool')
              (Node.learnings node)) as [questions|]; [|done].
  intros [= _ <-] Hb. rewrite slice0_length, decide_False by lia. lia.
Qed.

Lemma Math_ceil_half_nonneg b : 0 ≤ b → 0 ≤ Math_ceil_half b.
Proof. intros Hb. pose proof (Math_ceil_half_spec b). lia. Qed.

Lemma callAt_shape w path node p n :
  0 ≤ Node.breadth node →
  callAt w path node p = Some n →
  Node.breadth n = Nat.iter (length p) Math_ceil_half (Node.breadth node) ∧
  ∀ k i, p !! k = Some i →
    Z.of_nat i < Nat.iter k Math_ceil_half (Node.breadth node).
Proof.
  revert path node. induction p as [|i p IH]; intros path node Hb; simpl.
  - intros [= <-]. split; [done|]. by intros k i.
  - destruct (childCall w path node i) as [child|] eqn:Hc; [|done].
    apply childCall_Some in Hc as (tool & qs & q & response & Hq & Hi & _ & _ & ->).
    intros Hn.
    destruct (IH (path ++ [i]) (childNode node q response)
                (Math_ceil_half_nonneg _ Hb) Hn) as [Hbn Hidx].
    simpl in Hbn, Hidx. split.
    + rewrite Hbn. clear. induction (length p) as [|m IHm]; [done|].
      simpl. by rewrite IHm.
    + intros [|k] j; simpl.
      * intros [= <-]. pose proof (questionsOf_length _ _ _ _ _ Hq Hb).
        apply lookup_lt_Some in Hi. lia.
      * intros Hj%Hidx.
        replace (Math_ceil_half (Nat.iter k Math_ceil_half (Node.breadth node)))
          with (Nat.iter k Math_ceil_half (Math_ceil_half (Node.breadth node)));
          [done|].
        clear. induction k as [|m IHm]; [done|]. simpl. by rewrite IHm.
Qed.

(** With a breadth ≥ 0 the calls of a run fit in a tree fixed by breadth
    and depth alone: a call n levels down has the breadth obtained by
    halving (rounding up) n times; the branch taken at level k has an index
    below the breadth of that level; and n is below [max 1 depth].  So a run
    makes at most breadth calls of the tools at the top, at most
    ceil(breadth / 2) in each call of the next level, and so on, over at
    most [max 1 depth] levels. *)
Theorem call_tree_is_bounded (w : World) (query : string) (breadth depth : Z)
    (p : list nat) (n : Node.t) :
  0 ≤ breadth →
  callAt w [] (root query breadth depth) p = Some n →
  Node.breadth n = Nat.iter (length p) Math_ceil_half breadth ∧
  (∀ k i, p !! k = Some i → Z.of_nat i < Nat.iter k Math_ceil_half breadth) ∧
  Z.of_nat (length p) < Z.max 1 depth ∧
  (∀ tool followUpQuestions,
     questionsOf w p n = Some (tool, followUpQuestions) →
     Z.of_nat (length followUpQuestions) ≤
       Nat.iter (length p) Math_ceil_half breadth).
Proof.
  intros Hb Hn.
  destruct (callAt_shape w [] (root query breadth depth) p n Hb Hn)
    as [Hbn Hidx]. simpl in Hbn, Hidx.
  destruct (callAt_depth _ _ _ _ _ Hn) as [Hd Hpos]. simpl in Hd.
  split_and!; [done..| |].
  - destruct p as [|i p]; [simpl; lia|].
    assert (Node.depth n > 0) by (by apply Hpos). lia.
  - intros tool qs Hq. rewrite <- Hbn.
    apply (questionsOf_length _ _ _ _ _ Hq). rewrite Hbn.
    clear -Hb. induction (length p) as [|m IHm]; [done|].
    simpl. by apply Math_ceil_half_nonneg.
Qed.

Lemma call_tree_is_bounded_witness :
  ∃ n, callAt (sampleWorld [] []) [] (root "X" 3 3) [2; 1]%nat = Some n ∧
       Node.breadth n = 1.
Proof.
  eexists. split; [vm_compute; reflexivity|].
  refine (proj1 (call_tree_is_bounded (sampleWorld [] []) "X" 3 3 [2; 1]%nat _ _ _)).
  - lia.
  - vm_compute. reflexivity.
Defined.
